(** * csvutil: the dataset-manifest curation tool (tools/datasets/csvutil.py)

    A shallow embedding of the command-line tool and the properties its
    specification states about it.

    Conventions of the embedding.
    - A Python [str] is a list of Unicode code points ([N]).
    - A Python [float] is an IEEE 754 binary64 number ([PrimFloat.float]).
    - A call that can raise returns a [result]: [Return v] or [Raise e].
    - What the tool obtains from its platform (the Unicode character
      database, the HTML entity tables, the file system, OpenCV, the
      language detector, the sorting routine of pandas) is a field of a
      record the definitions take as an argument. *)

From Stdlib Require Import String Ascii.
From Stdlib Require Import List ZArith NArith Lia Bool.
From Stdlib Require Import Permutation PrimFloat Uint63 DecimalString.
From Stdlib Require Import SpecFloat FloatOps.
Import ListNotations.

Set Implicit Arguments.

(** ** Python values, strings and exceptions *)

Definition char := N.
Definition str := list char.

(** The code points of an ASCII literal. (Only used on ASCII text: a Rocq
    string literal holds bytes, which are code points below 128 only.) *)
Definition py_str (s : string) : str :=
  map N_of_ascii (list_ascii_of_string s).
Arguments py_str s%_string.

Definition str_eqb (a b : str) : bool :=
  if list_eq_dec N.eq_dec a b then true else false.

Inductive value : Type :=
| VStr (s : str)
| VInt (z : Z)
| VFloat (f : float)
| VBool (b : bool)
| VNone.

(** [np.nan], the missing-value marker of pandas. *)
Definition np_nan : float := PrimFloat.nan.

Inductive exn : Type :=
| IndexError
| AttributeError
| AssertionError
| KeyError
| TypeError
| ValueError
| ZeroDivisionError
| OverflowError
| OSError
| BreakpointHit.   (* [breakpoint()]: the run stops in the debugger *)

Inductive result (A : Type) : Type :=
| Return (a : A)
| Raise (e : exn).
Arguments Return {A} a.
Arguments Raise {A} e.

Definition bind {A B} (m : result A) (k : A -> result B) : result B :=
  match m with
  | Return a => k a
  | Raise e => Raise e
  end.

Declare Scope py_scope.
Delimit Scope py_scope with py.
Notation "x <- m ;; k" := (bind m (fun x => k))
  (at level 61, m at next level, right associativity) : py_scope.
Notation "m ;;; k" := (bind m (fun _ => k))
  (at level 61, right associativity) : py_scope.
Open Scope py_scope.

(** [assert cond] *)
Definition py_assert (cond : bool) : result unit :=
  if cond then Return tt else Raise AssertionError.

(** [for x in xs: ...] collecting the results; the first exception aborts. *)
Fixpoint mapM {A B} (f : A -> result B) (xs : list A) : result (list B) :=
  match xs with
  | [] => Return []
  | x :: xs' => y <- f x ;; ys <- mapM f xs' ;; Return (y :: ys)
  end.

(** ** String methods *)

(** [s.startswith(prefix)] *)
Fixpoint startswith (s prefix : str) {struct prefix} : bool :=
  match prefix, s with
  | [], _ => true
  | _ :: _, [] => false
  | p :: prefix', c :: s' => (c =? p)%N && startswith s' prefix'
  end.

(** [s.endswith(suffix)] *)
Definition endswith (s suffix : str) : bool :=
  startswith (rev s) (rev suffix).

(** [c in s] for a one-character [c] *)
Definition contains_char (c : char) (s : str) : bool :=
  existsb (N.eqb c) s.

(** The Unicode character database, as far as the tool consults it. *)
Record Unicode : Type := {
  isspace : char -> bool;   (* [c.isspace()] *)
  islower : char -> bool;   (* [c.islower()] on a one-character string *)
  upper : char -> str;      (* [c.upper()]: one to three code points *)
  lower : char -> str       (* [c.lower()] *)
}.

Section StringMethods.
Variable U : Unicode.

(** [s.lstrip()] *)
Fixpoint lstrip (s : str) : str :=
  match s with
  | [] => []
  | c :: s' => if isspace U c then lstrip s' else s
  end.

(** [s.rstrip()] *)
Fixpoint rstrip (s : str) : str :=
  match s with
  | [] => []
  | c :: s' =>
      match rstrip s' with
      | [] => if isspace U c then [] else [c]
      | r => c :: r
      end
  end.

(** [s.strip()] *)
Definition strip (s : str) : str := rstrip (lstrip s).
End StringMethods.

(** [s.lower()] *)
Definition str_lower (U : Unicode) (s : str) : str := flat_map (lower U) s.

(** The Basic Latin block of the character database: [isspace] is Python's
    complete white-space table; [islower] and [upper] are its case tables
    for code points below 128 and treat the others as uncased, so this
    instance is meant for ASCII text. *)
Definition py_isspace (c : char) : bool :=
  ((9 <=? c) && (c <=? 13) || (28 <=? c) && (c <=? 32)
   || (c =? 133) || (c =? 160) || (c =? 5760)
   || (8192 <=? c) && (c <=? 8202) || (c =? 8232) || (c =? 8233)
   || (c =? 8239) || (c =? 8287) || (c =? 12288))%N.

Definition latin_islower (c : char) : bool := ((97 <=? c) && (c <=? 122))%N.

Definition latin_upper (c : char) : str :=
  if latin_islower c then [(c - 32)%N] else [c].

Definition latin_lower (c : char) : str :=
  if ((65 <=? c) && (c <=? 90))%N then [(c + 32)%N] else [c].

Definition basic_latin : Unicode :=
  {| isspace := py_isspace; islower := latin_islower;
     upper := latin_upper; lower := latin_lower |}.

(** ** Caption normalizer: removal of a boilerplate prefix *)

Definition LLAVA_PREFIX : list str :=
  map py_str
    [ "The video shows";
      "The video captures";
      "The video features";
      "The video depicts";
      "The video presents";
      "The video features";
      "The video is ";
      "In the video,";
      "The image shows";
      "The image captures";
      "The image features";
      "The image depicts";
      "The image presents";
      "The image features";
      "The image is ";
      "The image portrays";
      "In the image," ]%string.

Section Caption.
Variable U : Unicode.

(** The body of the [if caption.startswith(prefix):] branch, on the
    caption [s] and the matching [prefix]. *)
Definition strip_prefix (prefix s : str) : result value :=
  let caption := strip U (skipn (length prefix) s) in
  match caption with
  | [] => Raise IndexError                         (* caption[0] *)
  | c0 :: tl =>
      if islower U c0
      then Return (VStr (upper U c0 ++ tl))
      else Return (VStr caption)
  end.

(** The [for prefix in LLAVA_PREFIX:] loop over the remaining prefixes. *)
Fixpoint remove_caption_prefix_loop (prefixes : list str) (caption : value)
  : result value :=
  match prefixes with
  | [] => Return VNone              (* the function ends without a return *)
  | prefix :: rest =>
      match caption with
      | VFloat _ => Raise BreakpointHit
      | VStr s =>
          if startswith s prefix then strip_prefix prefix s
          else remove_caption_prefix_loop rest caption
      | _ => Raise AttributeError   (* no method [startswith] *)
      end
  end.

Definition remove_caption_prefix (caption : value) : result value :=
  remove_caption_prefix_loop LLAVA_PREFIX caption.

(** Applying the transform to what a first application produced. *)
Definition remove_caption_prefix_twice (caption : value) : result value :=
  c1 <- remove_caption_prefix caption ;; remove_caption_prefix c1.
End Caption.


(** ** Caption normalizer: [html.unescape]

    The standard library's function, as the tool calls it on every
    caption: [if '&' not in s: return s], and otherwise every match of the
    character-reference pattern
    [&(#[0-9]+;?|#[xX][0-9a-fA-F]+;?|[^\t\n\f <&#;]{1,32};?)]
    is replaced by what [_replace_charref] returns for it. The three
    tables of the module are taken from the platform. The call raises
    [ValueError] when [int] refuses a decimal reference for its length. *)

Record HtmlTables : Type := {
  html5 : str -> option str;             (* [html.entities.html5] *)
  invalid_charrefs : N -> option str;    (* [_invalid_charrefs] *)
  invalid_codepoints : N -> bool         (* [num in _invalid_codepoints] *)
}.

Definition is_digit (c : char) : bool := ((48 <=? c) && (c <=? 57))%N.

Definition is_hexdigit (c : char) : bool :=
  (is_digit c || (97 <=? c) && (c <=? 102) || (65 <=? c) && (c <=? 70))%N.

(** The class [[^\t\n\f <&#;]]. *)
Definition is_name_char (c : char) : bool :=
  negb ((c =? 9) || (c =? 10) || (c =? 12) || (c =? 32)
        || (c =? 60) || (c =? 38) || (c =? 35) || (c =? 59))%N.

(** A greedy [p+] / [p*]: the longest run of [p] at the start of [s]. *)
Fixpoint take_while (p : char -> bool) (s : str) : str :=
  match s with
  | c :: s' => if p c then c :: take_while p s' else []
  | [] => []
  end.

(** A greedy [p{0,n}]. *)
Fixpoint take_upto (n : nat) (p : char -> bool) (s : str) : str :=
  match n, s with
  | S n', c :: s' => if p c then c :: take_upto n' p s' else []
  | _, _ => []
  end.

(** [;?] *)
Definition opt_semicolon (s : str) : str :=
  match s with
  | c :: _ => if (c =? 59)%N then [c] else []
  | [] => []
  end.

(** What group 1 of the pattern matches right after a ['&'], if the pattern
    matches there; the alternatives are tried in the order written. *)
Definition charref_group (rest : str) : option str :=
  match rest with
  | [] => None
  | c :: r1 =>
      if (c =? 35)%N then                                   (* '#' *)
        match take_while is_digit r1 with
        | (_ :: _) as ds =>
            Some (c :: ds ++ opt_semicolon (skipn (length ds) r1))
        | [] =>
            match r1 with
            | x :: r2 =>
                if ((x =? 120) || (x =? 88))%N then         (* 'x', 'X' *)
                  match take_while is_hexdigit r2 with
                  | (_ :: _) as hs =>
                      Some (c :: x :: hs
                              ++ opt_semicolon (skipn (length hs) r2))
                  | [] => None
                  end
                else None
            | [] => None
            end
        end
      else
        match take_upto 32 is_name_char rest with
        | (_ :: _) as nm => Some (nm ++ opt_semicolon (skipn (length nm) rest))
        | [] => None
        end
  end.

(** [s.rstrip(';')] *)
Fixpoint rstrip_semicolon (s : str) : str :=
  match s with
  | [] => []
  | c :: s' =>
      match rstrip_semicolon s' with
      | [] => if (c =? 59)%N then [] else [c]
      | r => c :: r
      end
  end.

Definition digit_value (c : char) : N :=
  (if is_digit c then c - 48
   else if (97 <=? c) && (c <=? 102) then c - 87
   else c - 55)%N.

(** The value of a run of digits of the base. *)
Definition int_of_digits (base : N) (s : str) : N :=
  fold_left (fun acc c => (acc * base + digit_value c)%N) s 0%N.

(** [sys.get_int_max_str_digits()], at its default. *)
Definition int_max_str_digits : nat := 4300.

(** [int(s)] on a run of decimal digits: a run of more digits than the
    limit (leading zeros count) is refused. *)
Definition int_decimal (s : str) : result N :=
  if (int_max_str_digits <? length s)%nat then Raise ValueError
  else Return (int_of_digits 10 s).

(** [int(s, 16)] on a run of hexadecimal digits: no limit applies to a
    base that is a power of two. *)
Definition int_hexadecimal (s : str) : result N :=
  Return (int_of_digits 16 s).

Section Unescape.
Variable T : HtmlTables.

(** The loop [for x in range(len(s)-1, 1, -1)] of [_replace_charref]: the
    longest proper prefix of [s], of two characters at least, that is an
    entity name. [x] is the loop variable. *)
Fixpoint longest_entity (x : nat) (s : str) : option str :=
  match x with
  | S x' =>
      if (2 <=? x)%nat then
        match html5 T (firstn x s) with
        | Some r => Some (r ++ skipn x s)
        | None => longest_entity x' s
        end
      else None
  | O => None
  end.

(** [_replace_charref], on group 1 of a match. *)
Definition replace_charref (s : str) : result str :=
  match s with
  | [] => Return []
  | c :: tl =>
      if (c =? 35)%N then
        num <- match tl with
               | x :: tl' =>
                   if ((x =? 120) || (x =? 88))%N
                   then int_hexadecimal (rstrip_semicolon tl')
                   else int_decimal (rstrip_semicolon tl)
               | [] => Return 0%N
               end ;;
        match invalid_charrefs T num with
        | Some r => Return r
        | None =>
            if ((55296 <=? num) && (num <=? 57343) || (1114111 <? num))%N
            then Return [65533%N]                           (* U+FFFD *)
            else if invalid_codepoints T num then Return []
            else Return [num]                               (* chr(num) *)
        end
      else
        match html5 T s with
        | Some r => Return r
        | None =>
            match longest_entity (length s - 1) s with
            | Some r => Return r
            | None => Return (38%N :: s)                    (* '&' + s *)
            end
        end
  end.

(** [_charref.sub(_replace_charref, s)]: a scan from the left, the
    replacement of a match computed when the scan reaches it; [skip] counts
    the characters of the current match that are still to be passed. *)
Fixpoint charref_sub (skip : nat) (s : str) : result str :=
  match s with
  | [] => Return []
  | c :: s' =>
      match skip with
      | S k => charref_sub k s'
      | O =>
          if (c =? 38)%N then
            match charref_group s' with
            | Some g =>
                r <- replace_charref g ;;
                rest <- charref_sub (length g) s' ;;
                Return (r ++ rest)
            | None => rest <- charref_sub 0 s' ;; Return (c :: rest)
            end
          else rest <- charref_sub 0 s' ;; Return (c :: rest)
      end
  end.

Definition unescape (s : str) : result str :=
  if negb (contains_char 38%N s) then Return s else charref_sub 0 s.

(** Unescaping what a first pass returned. *)
Definition unescape_twice (s : str) : result str :=
  t <- unescape s ;; unescape t.

(** [html.unescape] on a table cell: a value that is no string cannot be
    searched for ['&']. *)
Definition html_unescape (v : value) : result value :=
  match v with
  | VStr s => t <- unescape s ;; Return (VStr t)
  | _ => Raise TypeError
  end.
End Unescape.

(** An excerpt of the entity table (eleven of its names), with the two
    other tables empty: enough to run the function on text that uses only
    these names. *)
Definition html5_excerpt (name : str) : option str :=
  let is_ (n : string) := str_eqb name (py_str n) in
  (if is_ "amp;" || is_ "amp" || is_ "AMP;" || is_ "AMP"
   then Some (py_str "&")
   else if is_ "lt;" || is_ "lt" then Some (py_str "<")
   else if is_ "gt;" || is_ "gt" then Some (py_str ">")
   else if is_ "quot;" || is_ "quot" then Some [34%N]
   else if is_ "apos;" then Some (py_str "'")
   else None)%string.

Definition entity_excerpt : HtmlTables :=
  {| html5 := html5_excerpt;
     invalid_charrefs := fun _ => None;
     invalid_codepoints := fun _ => false |}.

(** ** [os.path] (posixpath) and the other string helpers of the driver *)

Definition sep : char := 47%N.       (* '/' *)
Definition extsep : char := 46%N.    (* '.' *)

(** [s.rfind(c)]: the highest index of [c] in [s], or -1. *)
Fixpoint rfind_from (c : char) (s : str) (i : Z) : Z :=
  match s with
  | [] => (-1)%Z
  | x :: s' =>
      let r := rfind_from c s' (i + 1)%Z in
      if (0 <=? r)%Z then r else if (x =? c)%N then i else (-1)%Z
  end.

Definition rfind (c : char) (s : str) : Z := rfind_from c s 0.

(** The slice [s[i:j]] for indexes that are not negative. *)
Definition slice {A} (i j : nat) (s : list A) : list A :=
  firstn (j - i) (skipn i s).

(** [os.path.splitext]: the extension starts at the last dot of the last
    path component, unless that component has only dots before it. The
    [while] loop of [genericpath._splitext] looks for a character that is
    no dot between the component's start and the last dot. *)
Definition splitext (p : str) : str * str :=
  let sepIndex := rfind sep p in
  let dotIndex := rfind extsep p in
  if (sepIndex <? dotIndex)%Z then
    let filenameIndex := Z.to_nat (sepIndex + 1) in
    if existsb (fun c => negb (c =? extsep)%N)
         (slice filenameIndex (Z.to_nat dotIndex) p)
    then (firstn (Z.to_nat dotIndex) p, skipn (Z.to_nat dotIndex) p)
    else (p, [])
  else (p, []).

(** [s.rstrip('/')] *)
Fixpoint rstrip_sep (s : str) : str :=
  match s with
  | [] => []
  | c :: s' =>
      match rstrip_sep s' with
      | [] => if (c =? sep)%N then [] else [c]
      | r => c :: r
      end
  end.

(** [os.path.dirname] *)
Definition dirname (p : str) : str :=
  let i := Z.to_nat (rfind sep p + 1) in
  let head := firstn i p in
  if forallb (N.eqb sep) head then head else rstrip_sep head.

(** [os.path.basename] *)
Definition basename (p : str) : str :=
  skipn (Z.to_nat (rfind sep p + 1)) p.

(** [os.path.join(a, b)] *)
Definition path_join (a b : str) : str :=
  if startswith b [sep] then b
  else if match a with [] => true | _ => endswith a [sep] end then a ++ b
  else a ++ sep :: b.

(** [s.split(".")[0]] *)
Definition stem (s : str) : str :=
  take_while (fun c => negb (c =? extsep)%N) s.

(** [sep.join(parts)] *)
Fixpoint str_join (sep_ : str) (parts : list str) : str :=
  match parts with
  | [] => []
  | [p] => p
  | p :: rest => p ++ sep_ ++ str_join sep_ rest
  end.

(** [s.replace(old, new)] for a non-empty [old]; [skip] counts the
    characters of the current occurrence that are still to be passed. *)
Fixpoint replace_from (skip : nat) (old new s : str) : str :=
  match s with
  | [] => []
  | c :: s' =>
      match skip with
      | S k => replace_from k old new s'
      | O =>
          if startswith s old
          then new ++ replace_from (length old - 1) old new s'
          else c :: replace_from 0 old new s'
      end
  end.

Definition str_replace (s old new : str) : str := replace_from 0 old new s.

(** [str(z)] for an [int] *)
Definition str_of_int (z : Z) : str :=
  py_str (DecimalString.NilZero.string_of_int (Z.to_int z)).

(** ** Floating point *)

(** [float(z)]: the double nearest to [z] (ties to even), exact up to 2^53
    in absolute value. Beyond the range of doubles, where [float] raises
    [OverflowError], it is the infinity of the sign of [z], which compares
    with every double as [z] does. *)
Definition float_of_int (z : Z) : float :=
  SF2Prim (binary_normalize prec emax z 0 false).

(** [a / b] on two [int]s (both below 2^53 in absolute value, where
    Python divides the two exact doubles). *)
Definition truediv (a b : Z) : result float :=
  if (b =? 0)%Z then Raise ZeroDivisionError
  else Return (PrimFloat.div (float_of_int a) (float_of_int b)).

(** ** Media prober *)

Definition IMG_EXTENSIONS : list str :=
  map py_str
    [".jpg"; ".jpeg"; ".png"; ".ppm"; ".bmp"; ".pgm"; ".tif"; ".tiff";
     ".webp"]%string.

(** [ext in IMG_EXTENSIONS] *)
Definition is_image_ext (ext : str) : bool :=
  existsb (str_eqb ext) IMG_EXTENSIONS.

(** OpenCV, as the prober uses it. [imread] gives [im.shape[:2]] of the
    decoded image, or [None] when the file cannot be read; [video_props]
    gives the frame count, height, width (after [int(...)]) and frame rate
    that [cv2.VideoCapture(path).get] reports. *)
Record OpenCV : Type := {
  imread : str -> option (Z * Z);
  video_props : str -> Z * Z * Z * float
}.

(** The tuple [(num_frames, height, width, aspect_ratio, fps)]. *)
Record VideoInfo : Type := {
  num_frames : Z;
  height : Z;
  width : Z;
  aspect_ratio : float;
  fps : float
}.

Section Prober.
Variable U : Unicode.
Variable cv : OpenCV.

(** The last two lines of [get_video_info]. *)
Definition video_info_of (num_frames height width : Z) (fps : float)
  : result VideoInfo :=
  aspect_ratio <- (if (0 <? width)%Z then truediv height width
                   else Return np_nan) ;;
  Return {| num_frames := num_frames; height := height; width := width;
            aspect_ratio := aspect_ratio; fps := fps |}.

Definition get_video_info_str (path : str) : result VideoInfo :=
  let ext := str_lower U (snd (splitext path)) in
  if is_image_ext ext then
    match imread cv path with
    | None =>
        Return {| num_frames := 0; height := 0; width := 0;
                  aspect_ratio := np_nan; fps := np_nan |}
    | Some (height, width) => video_info_of 1 height width np_nan
    end
  else
    let '(num_frames, height, width, fps) := video_props cv path in
    video_info_of num_frames height width fps.

(** [get_video_info] on a table cell: [os.path.splitext] rejects a value
    that is no string. *)
Definition get_video_info (path : value) : result VideoInfo :=
  match path with
  | VStr p => get_video_info_str p
  | _ => Raise TypeError
  end.
End Prober.

(** ** The dataset: a pandas [DataFrame]

    A table is its column names and its rows in order; a row keeps its
    index label and one cell per column. A cell is any Python value (the
    [object] dtype of pandas); what pandas decides from the dtype of a whole
    column is not part of the embedding. *)

Record Row : Type := { label : nat; cells : list value }.

Record DataFrame : Type := { columns : list str; rows : list Row }.

(** [len(data)] *)
Definition df_len (data : DataFrame) : nat := length (rows data).

(** [name in data.columns] *)
Definition has_column (data : DataFrame) (name : str) : bool :=
  existsb (str_eqb name) (columns data).

Fixpoint column_index (name : str) (cols : list str) : option nat :=
  match cols with
  | [] => None
  | c :: cols' =>
      if str_eqb name c then Some O
      else option_map S (column_index name cols')
  end.

Definition cell_at (i : nat) (r : Row) : value :=
  nth i (cells r) (VFloat np_nan).

(** [data[name]]: the cells of a column, in row order. *)
Definition getitem (data : DataFrame) (name : str) : result (list value) :=
  match column_index name (columns data) with
  | Some i => Return (map (cell_at i) (rows data))
  | None => Raise KeyError
  end.

(** [data[mask]] for a boolean mask with one entry per row. *)
Fixpoint select_rows (rs : list Row) (mask : list bool) : list Row :=
  match rs, mask with
  | r :: rs', b :: mask' =>
      if b then r :: select_rows rs' mask' else select_rows rs' mask'
  | _, _ => []
  end.

Definition boolean_index (data : DataFrame) (mask : list bool) : DataFrame :=
  {| columns := columns data; rows := select_rows (rows data) mask |}.

Fixpoint replace_nth {A} (i : nat) (x : A) (l : list A) : list A :=
  match l, i with
  | [], _ => []
  | _ :: l', O => x :: l'
  | y :: l', S i' => y :: replace_nth i' x l'
  end.

(** [data[name] = vals]: overwrites the column, or adds it as the last. *)
Definition setitem (data : DataFrame) (name : str) (vals : list value)
  : DataFrame :=
  match column_index name (columns data) with
  | Some i =>
      {| columns := columns data;
         rows := map (fun rv => {| label := label (fst rv);
                                   cells := replace_nth i (snd rv)
                                              (cells (fst rv)) |})
                     (combine (rows data) vals) |}
  | None =>
      {| columns := columns data ++ [name];
         rows := map (fun rv => {| label := label (fst rv);
                                   cells := cells (fst rv) ++ [snd rv] |})
                     (combine (rows data) vals) |}
  end.

(** [apply(series, func)]: [func] on every cell in row order, sequentially
    or on a worker pool; the results come back in row order either way. *)
Definition apply {B} (series : list value) (func : value -> result B)
  : result (list B) :=
  mapM func series.

(** [pd.isna] on a cell *)
Definition isna (v : value) : bool :=
  match v with
  | VFloat f => PrimFloat.is_nan f
  | VNone => true
  | _ => false
  end.

(** Equality of two cells as [Series.isin] decides it: strings by
    character, numbers by value, a missing value matches a missing one. *)
Definition value_eqb (a b : value) : bool :=
  match a, b with
  | VStr x, VStr y => str_eqb x y
  | VInt x, VInt y => (x =? y)%Z
  | VFloat x, VFloat y =>
      PrimFloat.eqb x y || PrimFloat.is_nan x && PrimFloat.is_nan y
  | VInt x, VFloat y => PrimFloat.eqb (float_of_int x) y
  | VFloat x, VInt y => PrimFloat.eqb x (float_of_int y)
  | VBool x, VBool y => Bool.eqb x y
  | VNone, VNone => true
  | _, _ => false
  end.

(** [series.isin(values)] on one cell *)
Definition isin (values : list value) (v : value) : bool :=
  existsb (value_eqb v) values.

(** [pd.concat(frames, ignore_index=True, sort=False)]: the columns in the
    order they first appear, the rows of every table in order, cells of a
    column a table lacks missing, labels renumbered from 0. *)
Definition union_columns (frames : list DataFrame) : list str :=
  fold_left
    (fun acc df =>
       acc ++ filter (fun c => negb (existsb (str_eqb c) acc)) (columns df))
    frames [].

Definition reindex_row (from to : list str) (r : Row) : list value :=
  map (fun c => match column_index c from with
                | Some i => cell_at i r
                | None => VFloat np_nan
                end) to.

Definition relabel (all : list (list value)) : list Row :=
  map (fun ic => {| label := fst ic; cells := snd ic |})
      (combine (seq 0 (length all)) all).

Definition pd_concat (frames : list DataFrame) : result DataFrame :=
  match frames with
  | [] => Raise ValueError                  (* no objects to concatenate *)
  | _ =>
      let cols := union_columns frames in
      Return {| columns := cols;
                rows := relabel
                          (flat_map
                             (fun df => map (reindex_row (columns df) cols)
                                            (rows df))
                             frames) |}
  end.

(** ** [np.array_split] *)

Fixpoint cumsum_from (acc : nat) (l : list nat) : list nat :=
  match l with
  | [] => []
  | x :: l' => (acc + x) :: cumsum_from (acc + x) l'
  end.

(** [np.array(l).cumsum()] *)
Definition cumsum (l : list nat) : list nat := cumsum_from 0 l.

(** [section_sizes] of [array_split], without its leading 0. *)
Definition section_sizes (Ntotal Nsections : nat) : list nat :=
  let Neach_section := Ntotal / Nsections in
  let extras := Ntotal mod Nsections in
  repeat (S Neach_section) extras ++ repeat Neach_section (Nsections - extras).

Definition array_split {A} (ary : list A) (indices_or_sections : Z)
  : result (list (list A)) :=
  let Ntotal := length ary in
  if (indices_or_sections <=? 0)%Z then Raise ValueError
  else
    let Nsections := Z.to_nat indices_or_sections in
    let div_points := cumsum (0 :: section_sizes Ntotal Nsections) in
    Return (map (fun i => slice (nth i div_points 0) (nth (S i) div_points 0)
                            ary)
                (seq 0 Nsections)).

(** ** The command line *)

Module Args.
Record t : Type := {
  input : list str;
  output : option str;
  disable_parallel : bool;
  shard : option Z;
  sort_descending : option str;
  sort_ascending : option str;
  difference : option str;
  intersection : option str;
  relpath : option str;
  abspath : option str;
  ext : bool;
  remove_empty_caption : bool;
  lang : option str;
  remove_url : bool;
  remove_caption_prefix : bool;
  unescape : bool;
  info : bool;
  fmin : option Z;
  fmax : option Z;
  aesmin : option float;
  matchmin : option float
}.
End Args.

Definition is_none {A} (o : option A) : bool :=
  match o with None => true | Some _ => false end.

(** [if flag: name += suffix] *)
Definition suffix_if (flag : bool) (suffix name : str) : str :=
  if flag then name ++ suffix else name.

(** [if opt is not None: name += f(opt)] *)
Definition suffix_opt {A} (opt : option A) (f : A -> str) (name : str) : str :=
  match opt with
  | Some x => name ++ f x
  | None => name
  end.

Section OutputPath.
(** [repr] of a [float], as an f-string prints it. *)
Variable repr_float : float -> str.

Definition get_output_path (args : Args.t) (input_name : str) : result str :=
  match Args.output args with
  | Some o => Return o
  | None =>
      let name := input_name in
      input0 <- match Args.input args with
                | p :: _ => Return p
                | [] => Raise IndexError
                end ;;
      let dir_path := dirname input0 in
      (* path processing *)
      let name := suffix_opt (Args.relpath args)
                    (fun _ => py_str "_relpath") name in
      let name := suffix_opt (Args.abspath args)
                    (fun _ => py_str "_abspath") name in
      (* path filtering *)
      let name := suffix_if (Args.ext args) (py_str "_ext") name in
      (* caption filtering *)
      let name := suffix_if (Args.remove_empty_caption args)
                    (py_str "_noempty") name in
      let name := suffix_opt (Args.lang args)
                    (fun l => py_str "_" ++ l) name in
      let name := suffix_if (Args.remove_url args) (py_str "_nourl") name in
      (* caption processing *)
      let name := suffix_if (Args.remove_caption_prefix args)
                    (py_str "_rcp") name in
      let name := suffix_if (Args.unescape args) (py_str "_unescape") name in
      (* num_frames processing *)
      let name := suffix_if (Args.info args) (py_str "_info") name in
      (* num_frames filtering *)
      let name := suffix_opt (Args.fmin args)
                    (fun n => py_str "_fmin" ++ str_of_int n) name in
      let name := suffix_opt (Args.fmax args)
                    (fun n => py_str "_fmax" ++ str_of_int n) name in
      (* aesthetic filtering *)
      let name := suffix_opt (Args.aesmin args)
                    (fun x => py_str "_aesmin" ++ repr_float x) name in
      (* clip score filtering *)
      let name := suffix_opt (Args.matchmin args)
                    (fun x => py_str "_matchmin" ++ repr_float x) name in
      (* sort *)
      name <- match Args.sort_descending args with
              | Some _ =>
                  py_assert (is_none (Args.sort_ascending args)) ;;;
                  Return (name ++ py_str "_sort")
              | None => Return name
              end ;;
      name <- match Args.sort_ascending args with
              | Some _ =>
                  py_assert (is_none (Args.sort_descending args)) ;;;
                  Return (name ++ py_str "_sort")
              | None => Return name
              end ;;
      let output_path := path_join dir_path (name ++ py_str ".csv") in
      Return output_path
  end.
End OutputPath.

(** ** The pipeline driver *)

(** What [main] obtains from outside the repository. *)
Record Platform : Type := {
  ucd : Unicode;
  entities : HtmlTables;
  cv2 : OpenCV;
  repr_float : float -> str;
  glob : str -> list str;                    (* [glob(pattern)] *)
  read_csv : str -> result DataFrame;        (* [pd.read_csv(path)] *)
  (* [os.path.exists(x)] on a cell: a string is a path, an integer a file
     descriptor; other values are refused *)
  path_exists : value -> result bool;
  os_relpath : str -> str -> result str;     (* [os.path.relpath(p, start)] *)
  detect_lang : str -> result bool;          (* the detector of lingua *)
  (* [data.sort_values(by=by, ascending=ascending)] *)
  sort_values : DataFrame -> str -> bool -> result DataFrame
}.

(** The search of [https?://[^\s]+] in a caption. *)
Definition url_at (U : Unicode) (s : str) : bool :=
  let nonspace_after n :=
    match skipn n s with
    | c :: _ => negb (isspace U c)
    | [] => false
    end in
  startswith s (py_str "http://") && nonspace_after 7%nat
  || startswith s (py_str "https://") && nonspace_after 8%nat.

Fixpoint contains_url (U : Unicode) (s : str) : bool :=
  match s with
  | [] => false
  | _ :: s' => url_at U s || contains_url U s'
  end.

(** [value >= threshold] on a cell of a numeric column *)
Definition ge_int (threshold : Z) (v : value) : result bool :=
  match v with
  | VInt z => Return (threshold <=? z)%Z
  | VFloat f => Return (PrimFloat.leb (float_of_int threshold) f)
  | VBool b => Return (threshold <=? (if b then 1 else 0))%Z
  | _ => Raise TypeError
  end.

(** [value <= threshold] *)
Definition le_int (threshold : Z) (v : value) : result bool :=
  match v with
  | VInt z => Return (z <=? threshold)%Z
  | VFloat f => Return (PrimFloat.leb f (float_of_int threshold))
  | VBool b => Return ((if b then 1 else 0) <=? threshold)%Z
  | _ => Raise TypeError
  end.

Definition ge_float (threshold : float) (v : value) : result bool :=
  match v with
  | VInt z => Return (PrimFloat.leb threshold (float_of_int z))
  | VFloat f => Return (PrimFloat.leb threshold f)
  | VBool b => Return (PrimFloat.leb threshold (if b then 1 else 0)%float)
  | _ => Raise TypeError
  end.

(** A function of strings on a cell: a cell that is no string is rejected
    ([os.path.relpath], [os.path.join], the language detector). *)
Definition on_str {B} (f : str -> result B) (v : value) : result B :=
  match v with
  | VStr s => f s
  | _ => Raise TypeError
  end.

(** One written file: its path and the table [to_csv] wrote to it. *)
Definition Written : Type := (str * DataFrame)%type.

Definition col_path : str := py_str "path".
Definition col_text : str := py_str "text".
Definition col_num_frames : str := py_str "num_frames".
Definition col_aes : str := py_str "aes".
Definition col_match : str := py_str "match".

(** [if flag: data = stage(data)] *)
Definition when_flag {A} (flag : bool) (stage : A -> result A) (x : A)
  : result A :=
  if flag then stage x else Return x.

(** [if opt is not None: data = stage(opt, data)] *)
Definition when_given {A B} (opt : option B) (stage : B -> A -> result A)
  (x : A) : result A :=
  match opt with
  | Some b => stage b x
  | None => Return x
  end.

(** [data = data[~data["path"].isin(data_diff["path"])]] *)
Definition make_difference (data data_diff : DataFrame) : result DataFrame :=
  paths <- getitem data col_path ;;
  ref <- getitem data_diff col_path ;;
  Return (boolean_index data (map (fun v => negb (isin ref v)) paths)).

(** [data = data[data["path"].isin(data_int["path"])]] *)
Definition make_intersection (data data_int : DataFrame) : result DataFrame :=
  paths <- getitem data col_path ;;
  ref <- getitem data_int col_path ;;
  Return (boolean_index data (map (isin ref) paths)).

(** [series.str.len() > 0] on one cell: the length of a cell that is no
    string is missing, and a missing value is not above 0. *)
Definition str_len_positive (v : value) : bool :=
  match v with
  | VStr s => (0 <? length s)%nat
  | _ => false
  end.

(** The shard stage: [np.array_split] and one [to_csv] per shard, or one
    [to_csv] of the whole table. *)
Definition shard_path (output_path : str) (i : nat) : str :=
  str_replace output_path (py_str ".csv")
    (py_str "_" ++ str_of_int (Z.of_nat i) ++ py_str ".csv").

Definition write_output (shard : option Z) (output_path : str)
  (data : DataFrame) : result (list Written) :=
  match shard with
  | Some n =>
      sharded_data <- array_split (rows data) n ;;
      Return (map (fun ix => (shard_path output_path (fst ix),
                              {| columns := columns data; rows := snd ix |}))
                  (combine (seq 0 (Z.to_nat n)) sharded_data))
  | None => Return [(output_path, data)]
  end.

(** [data[mask]] for the mask that [apply] returned over a column of paths
    or of captions. On a table with no row [apply] returns an empty Series
    of the dtype of the column ([object] for a column of strings, as both
    are read), which is no boolean mask: [data[...]] reads it as a list of
    column names, an empty one, and returns a table with no column. *)
Definition applied_index (data : DataFrame) (mask : list bool) : DataFrame :=
  match mask with
  | [] => {| columns := []; rows := [] |}
  | _ :: _ => boolean_index data mask
  end.

Section Driver.
Variable P : Platform.

Definition filter_ext (data : DataFrame) : result DataFrame :=
  py_assert (has_column data col_path) ;;;
  paths <- getitem data col_path ;;
  mask <- apply paths (path_exists P) ;;
  Return (applied_index data mask).

Definition filter_empty_caption (data : DataFrame) : result DataFrame :=
  py_assert (has_column data col_text) ;;;
  text <- getitem data col_text ;;
  let data := boolean_index data (map str_len_positive text) in
  text <- getitem data col_text ;;
  Return (boolean_index data (map (fun v => negb (isna v)) text)).

(** A cell that is no string makes the result of [str.contains] hold a
    missing value, which [~] rejects. *)
Definition filter_url (data : DataFrame) : result DataFrame :=
  py_assert (has_column data col_text) ;;;
  text <- getitem data col_text ;;
  found <- mapM (on_str (fun s => Return (contains_url (ucd P) s))) text ;;
  Return (boolean_index data (map negb found)).

(** [build_lang_detector]: only ["en"] is a key of [lang_dict]. *)
Definition build_lang_detector (lang_to_detect : str)
  : result (value -> result bool) :=
  py_assert (str_eqb lang_to_detect (py_str "en")) ;;;
  Return (on_str (detect_lang P)).

Definition filter_lang (detect : value -> result bool) (data : DataFrame)
  : result DataFrame :=
  py_assert (has_column data col_text) ;;;
  text <- getitem data col_text ;;
  mask <- mapM detect text ;;
  Return (applied_index data mask).

Definition process_relpath (base : str) (data : DataFrame)
  : result DataFrame :=
  paths <- getitem data col_path ;;
  new <- apply paths
           (on_str (fun x => r <- os_relpath P x base ;; Return (VStr r))) ;;
  Return (setitem data col_path new).

Definition process_abspath (base : str) (data : DataFrame)
  : result DataFrame :=
  paths <- getitem data col_path ;;
  new <- apply paths (on_str (fun x => Return (VStr (path_join base x)))) ;;
  Return (setitem data col_path new).

Definition process_caption_prefix (data : DataFrame) : result DataFrame :=
  py_assert (has_column data col_text) ;;;
  text <- getitem data col_text ;;
  new <- apply text (remove_caption_prefix (ucd P)) ;;
  Return (setitem data col_text new).

Definition process_unescape (data : DataFrame) : result DataFrame :=
  py_assert (has_column data col_text) ;;;
  text <- getitem data col_text ;;
  new <- apply text (html_unescape (entities P)) ;;
  Return (setitem data col_text new).

(** With no row at all, the [zip] of the probe results yields nothing to
    unpack into the five columns. *)
Definition process_info (data : DataFrame) : result DataFrame :=
  paths <- getitem data col_path ;;
  info <- apply paths (get_video_info (ucd P) (cv2 P)) ;;
  match info with
  | [] => Raise ValueError
  | _ =>
      let data := setitem data col_num_frames
                    (map (fun i => VInt (num_frames i)) info) in
      let data := setitem data (py_str "height")
                    (map (fun i => VInt (height i)) info) in
      let data := setitem data (py_str "width")
                    (map (fun i => VInt (width i)) info) in
      let data := setitem data (py_str "aspect_ratio")
                    (map (fun i => VFloat (aspect_ratio i)) info) in
      Return (setitem data (py_str "fps") (map (fun i => VFloat (fps i)) info))
  end.

(** [assert name in data.columns; data = data[test(data[name])]] *)
Definition filter_threshold (name : str) (test : value -> result bool)
  (data : DataFrame) : result DataFrame :=
  py_assert (has_column data name) ;;;
  col <- getitem data name ;;
  mask <- mapM test col ;;
  Return (boolean_index data mask).

Definition main (args : Args.t) : result (list Written) :=
  (* reading data *)
  let input_list := flat_map (glob P) (Args.input args) in
  frames <- mapM (read_csv P) input_list ;;
  let input_name :=
    str_join (py_str "+") (map (fun p => stem (basename p)) input_list) in
  data <- pd_concat frames ;;
  (* make difference *)
  data <- when_given (Args.difference args)
            (fun f data => data_diff <- read_csv P f ;;
                           make_difference data data_diff) data ;;
  let input_name :=
    suffix_opt (Args.difference args)
      (fun f => py_str "-" ++ stem (basename f)) input_name in
  (* make intersection *)
  data <- when_given (Args.intersection args)
            (fun f data => data_int <- read_csv P f ;;
                           make_intersection data data_int) data ;;
  let input_name :=
    suffix_opt (Args.intersection args)
      (fun f => py_str "-" ++ stem (basename f)) input_name in
  (* get output path *)
  output_path <- get_output_path (repr_float P) args input_name ;;
  (* preparation *)
  detect <- match Args.lang args with
            | Some l => build_lang_detector l
            | None => Return (fun _ => Raise TypeError)   (* never called *)
            end ;;
  (* filtering *)
  data <- when_flag (Args.ext args) filter_ext data ;;
  data <- when_flag (Args.remove_empty_caption args)
            filter_empty_caption data ;;
  data <- when_flag (Args.remove_url args) filter_url data ;;
  data <- when_given (Args.lang args) (fun _ => filter_lang detect) data ;;
  (* processing *)
  data <- when_given (Args.relpath args) process_relpath data ;;
  data <- when_given (Args.abspath args) process_abspath data ;;
  data <- when_flag (Args.remove_caption_prefix args)
            process_caption_prefix data ;;
  data <- when_flag (Args.unescape args) process_unescape data ;;
  data <- when_flag (Args.info args) process_info data ;;
  (* filtering *)
  data <- when_given (Args.fmin args)
            (fun n => filter_threshold col_num_frames (ge_int n)) data ;;
  data <- when_given (Args.fmax args)
            (fun n => filter_threshold col_num_frames (le_int n)) data ;;
  data <- when_given (Args.aesmin args)
            (fun x => filter_threshold col_aes (ge_float x)) data ;;
  data <- when_given (Args.matchmin args)
            (fun x => filter_threshold col_match (ge_float x)) data ;;
  (* sort *)
  data <- when_given (Args.sort_descending args)
            (fun by_ data => sort_values P data by_ false) data ;;
  data <- when_given (Args.sort_ascending args)
            (fun by_ data => sort_values P data by_ true) data ;;
  (* shard data *)
  write_output (Args.shard args) output_path data.
End Driver.

(** ** A small platform to run the tool on

    Three manifest files, two media files that exist (one of them an image
    OpenCV can decode), and a sorting routine (an insertion sort on one
    column). *)

Definition mk_row (label : nat) (cells : list value) : Row :=
  {| label := label; cells := cells |}.

Definition in_csv : DataFrame :=
  {| columns := [col_path; col_text; col_aes];
     rows :=
       [ mk_row 0 [VStr (py_str "a.png");
                   VStr (py_str "The video shows a cat."); VInt 2];
         mk_row 1 [VStr (py_str "b.mp4"); VStr (py_str "A dog runs."); VInt 9];
         mk_row 2 [VStr (py_str "c.jpg"); VStr (py_str "&lt;b&gt;"); VInt 5] ]
  |}.

Definition ref_csv : DataFrame :=
  {| columns := [col_path];
     rows := [ mk_row 0 [VStr (py_str "b.mp4")];
               mk_row 1 [VStr (py_str "z.mp4")] ] |}.

(** The table of the scenario of the specification: an empty caption
    (which [read_csv] reads as a missing value), a caption with a
    boilerplate prefix, and a caption whose file does not exist. *)
Definition scenario_csv : DataFrame :=
  {| columns := [col_path; col_text];
     rows :=
       [ mk_row 0 [VStr (py_str "a.png"); VFloat np_nan];
         mk_row 1 [VStr (py_str "b.mp4");
                   VStr (py_str "The video shows a cat.")];
         mk_row 2 [VStr (py_str "missing.mp4"); VStr (py_str "A dog runs.")] ]
  |}.

Definition demo_read_csv (path : str) : result DataFrame :=
  if str_eqb path (py_str "data/in.csv") then Return in_csv
  else if str_eqb path (py_str "data/ref.csv") then Return ref_csv
  else if str_eqb path (py_str "data/scenario.csv") then Return scenario_csv
  else Raise OSError.

Definition demo_cv2 : OpenCV :=
  {| imread := fun p => if str_eqb p (py_str "a.png")
                        then Some (1080, 1920)%Z else None;
     video_props := fun _ => (0, 0, 0, 0%float)%Z |}.

Definition value_leb (a b : value) : bool :=
  match a, b with
  | VInt x, VInt y => (x <=? y)%Z
  | VFloat x, VFloat y => PrimFloat.leb x y
  | _, _ => false
  end.

Fixpoint insert_row (le : value -> value -> bool) (i : nat) (r : Row)
  (sorted : list Row) : list Row :=
  match sorted with
  | [] => [r]
  | x :: xs =>
      if le (cell_at i r) (cell_at i x) then r :: sorted
      else x :: insert_row le i r xs
  end.

Definition demo_sort_values (data : DataFrame) (by_ : str) (ascending : bool)
  : result DataFrame :=
  match column_index by_ (columns data) with
  | None => Raise KeyError
  | Some i =>
      let le := if ascending then value_leb else fun a b => value_leb b a in
      Return {| columns := columns data;
                rows := fold_right (insert_row le i) [] (rows data) |}
  end.

(** The files [a.png] and [b.mp4] exist, and the three standard file
    descriptors are open. An integer that is no C [int] is refused as a
    file descriptor; [True] and [False] are the descriptors 1 and 0. *)
Definition demo_path_exists (x : value) : result bool :=
  match x with
  | VStr p => Return (str_eqb p (py_str "a.png") || str_eqb p (py_str "b.mp4"))
  | VInt fd =>
      if ((fd <? - 2 ^ 31) || (2 ^ 31 <=? fd))%Z then Raise OverflowError
      else Return ((0 <=? fd) && (fd <=? 2))%Z
  | VBool _ => Return true
  | _ => Raise TypeError
  end.

Definition demo : Platform :=
  {| ucd := basic_latin;
     entities := entity_excerpt;
     cv2 := demo_cv2;
     repr_float := fun _ => py_str "0.5";
     glob := fun pattern => [pattern];
     read_csv := demo_read_csv;
     path_exists := demo_path_exists;
     os_relpath := fun p _ => Return p;
     detect_lang := fun _ => Return true;
     sort_values := demo_sort_values |}.

(** A command line that gives one input file and, possibly, [--output],
    the two sort flags, [--ext], [--remove-empty-caption] and
    [--remove-caption-prefix]; every other option keeps its default. *)
Definition cli (input : str) (output : option str)
  (sort_descending sort_ascending : option str)
  (ext remove_empty_caption remove_caption_prefix : bool) : Args.t :=
  {| Args.input := [input];
     Args.output := output;
     Args.disable_parallel := false;
     Args.shard := None;
     Args.sort_descending := sort_descending;
     Args.sort_ascending := sort_ascending;
     Args.difference := None;
     Args.intersection := None;
     Args.relpath := None;
     Args.abspath := None;
     Args.ext := ext;
     Args.remove_empty_caption := remove_empty_caption;
     Args.lang := None;
     Args.remove_url := false;
     Args.remove_caption_prefix := remove_caption_prefix;
     Args.unescape := false;
     Args.info := false;
     Args.fmin := None;
     Args.fmax := None;
     Args.aesmin := None;
     Args.matchmin := None |}.

(** [csvutil.py data/in.csv] *)
Definition no_option : Args.t :=
  cli (py_str "data/in.csv") None None None false false false.

(** [csvutil.py data/in.csv --sort-descending aes --sort-ascending aes] *)
Definition sort_both : Args.t :=
  cli (py_str "data/in.csv") None (Some col_aes) (Some col_aes)
    false false false.

(** The same with [--output out.csv]. *)
Definition sort_both_output : Args.t :=
  cli (py_str "data/in.csv") (Some (py_str "out.csv"))
    (Some col_aes) (Some col_aes) false false false.

(** [csvutil.py data/scenario.csv --remove-empty-caption
    --remove-caption-prefix --ext] *)
Definition scenario : Args.t :=
  cli (py_str "data/scenario.csv") None None None true true true.

(** Every row has one cell per column. *)
Definition well_formed (data : DataFrame) : bool :=
  forallb (fun r => (length (cells r) =? length (columns data))%nat)
    (rows data).

(** ** Vocabulary of the statements *)

(** Two strings disagree at a position both have. *)
Fixpoint clash (a b : str) : bool :=
  match a, b with
  | x :: a', y :: b' => negb (x =? y)%N || clash a' b'
  | _, _ => false
  end.

(** The first prefix, in list order, that the caption starts with. *)
Definition first_prefix (prefixes : list str) (s : str) : option str :=
  find (startswith s) prefixes.

(** The caption starts with none of the prefixes. *)
Definition no_prefix (prefixes : list str) (s : str) : bool :=
  forallb (fun p => negb (startswith s p)) prefixes.

(** The remainder with its first character in upper case when it is a
    lower-case one. *)
Definition capitalize (U : Unicode) (s : str) : str :=
  match s with
  | c0 :: tl => if islower U c0 then upper U c0 ++ tl else s
  | [] => []
  end.

(** An entity name is the whole of [g], or a proper prefix of [g] of two
    characters at least. *)
Definition names_entity (T : HtmlTables) (g : str) : bool :=
  negb (is_none (html5 T g))
  || existsb (fun x => negb (is_none (html5 T (firstn x g))))
       (seq 2 (length g - 2)).

(** A reference that a pass decodes: a numeric one (it starts with ['#']),
    or a named one that holds an entity name. *)
Definition decodes (T : HtmlTables) (g : str) : bool :=
  startswith g [35%N] || names_entity T g.

(** Some ['&'] of the string starts a character reference that decodes.
    (A ['&'] in front of letters that name no entity, as in [AT&T], starts
    a reference that does not.) *)
Fixpoint has_decoding (T : HtmlTables) (s : str) : bool :=
  match s with
  | [] => false
  | c :: s' =>
      (c =? 38)%N
      && match charref_group s' with
         | Some g => decodes T g
         | None => false
         end
      || has_decoding T s'
  end.

(** The shards cut one after the other: the first [n] rows, then the next
    ones from what is left. *)
Fixpoint split_sizes {A} (sizes : list nat) (l : list A) : list (list A) :=
  match sizes with
  | [] => []
  | n :: sizes' => firstn n l :: split_sizes sizes' (skipn n l)
  end.

(** [sub] is [l] with some of its elements left out, the others in their
    order. *)
Inductive sublist {A : Type} : list A -> list A -> Prop :=
| sublist_nil : sublist [] []
| sublist_skip (x : A) (sub l : list A) : sublist sub l -> sublist sub (x :: l)
| sublist_keep (x : A) (sub l : list A) :
    sublist sub l -> sublist (x :: sub) (x :: l).

(** A stage that only drops rows: the columns stay, and the rows that are
    left are rows of the input, in their order. *)
Definition only_drops_rows (stage : DataFrame -> result DataFrame) : Prop :=
  forall data data',
    stage data = Return data' ->
    columns data' = columns data /\ sublist (rows data') (rows data).

(** A stage that drops rows through a mask made by [apply]: the rows that
    are left are rows of the input, in their order; the columns stay when
    the input has a row, and none is left when it has no row. *)
Definition drops_rows_applied (stage : DataFrame -> result DataFrame) : Prop :=
  forall data data',
    stage data = Return data' ->
    sublist (rows data') (rows data)
    /\ (rows data <> [] -> columns data' = columns data)
    /\ (rows data = [] -> columns data' = []).

(** A stage that only rewrites cells: the rows stay, with their labels. *)
Definition keeps_rows (stage : DataFrame -> result DataFrame) : Prop :=
  forall data data',
    stage data = Return data' ->
    map label (rows data') = map label (rows data).

(** [sub in s]: [sub] occurs in [s]. *)
Fixpoint has_substring (sub s : str) : bool :=
  startswith s sub
  || match s with
     | [] => false
     | _ :: s' => has_substring sub s'
     end.

(** An [int] that a double holds exactly. A bound of this size compares
    the same with the cells of an [int64], a [float64] and an [object]
    column: its conversion to the dtype of the column loses nothing. *)
Definition exact_double (z : Z) : bool := (Z.abs z <=? 2 ^ 53)%Z.

(** The value passes both frame-count bounds of [--fmin a --fmax b]. *)
Definition in_frame_range (a b : Z) (v : value) : bool :=
  match ge_int a v, le_int b v with
  | Return x, Return y => x && y
  | _, _ => false
  end.

(** The test holds on the cell (a test that raises holds on nothing). *)
Definition passes (test : value -> result bool) (v : value) : bool :=
  match test v with
  | Return b => b
  | Raise _ => false
  end.

(** A stage that rewrites the cells of one column only: the columns stay,
    and every row keeps its label and its cells in the other columns. *)
Definition rewrites_only (name : str) (stage : DataFrame -> result DataFrame)
  : Prop :=
  forall data data',
    stage data = Return data' ->
    columns data' = columns data
    /\ exists i,
         column_index name (columns data) = Some i
         /\ Forall2 (fun r r' => label r' = label r
                                 /\ forall j, j <> i ->
                                              cell_at j r' = cell_at j r)
              (rows data) (rows data').

(** The five columns [--info] derives. *)
Definition info_columns : list str :=
  [col_num_frames; py_str "height"; py_str "width"; py_str "aspect_ratio";
   py_str "fps"].

(** The platform [demo] with input patterns that match no file. *)
Definition demo_no_match : Platform :=
  {| ucd := ucd demo;
     entities := entities demo;
     cv2 := cv2 demo;
     repr_float := repr_float demo;
     glob := fun _ => [];
     read_csv := read_csv demo;
     path_exists := path_exists demo;
     os_relpath := os_relpath demo;
     detect_lang := detect_lang demo;
     sort_values := sort_values demo |}.

(** * Properties *)

Unset Implicit Arguments.

(** ** String methods *)

Lemma str_eqb_eq (a b : str) : str_eqb a b = true <-> a = b.
Proof.
  unfold str_eqb. destruct (list_eq_dec N.eq_dec a b); split; congruence.
Qed.

Lemma startswith_app (p w : str) : startswith (p ++ w) p = true.
Proof.
  induction p as [|c p IH]; simpl; [reflexivity|].
  now rewrite N.eqb_refl, IH.
Qed.

Lemma startswith_split (s p : str) :
  startswith s p = true -> s = p ++ skipn (length p) s.
Proof.
  revert s. induction p as [|c p IH]; intros s H; simpl in *; [reflexivity|].
  destruct s as [|x s]; [discriminate|].
  apply andb_true_iff in H as [Hc Hs]. apply N.eqb_eq in Hc. subst x.
  simpl. f_equal. now apply IH.
Qed.

Lemma startswith_length (s p : str) :
  startswith s p = true -> length s = length p + length (skipn (length p) s).
Proof.
  intros H. rewrite (startswith_split _ _ H) at 1. apply length_app.
Qed.

Lemma clash_startswith (q p w : str) :
  clash q p = true -> startswith (p ++ w) q = false.
Proof.
  revert p. induction q as [|x q IH]; intros p H; simpl in *; [discriminate|].
  destruct p as [|y p]; [discriminate|]. simpl.
  apply orb_true_iff in H as [H|H].
  - apply negb_true_iff in H. rewrite N.eqb_sym, H. reflexivity.
  - rewrite (IH _ H). apply andb_false_r.
Qed.

Section StripFacts.
Variable U : Unicode.

Lemma lstrip_length (s : str) : length (lstrip U s) <= length s.
Proof.
  induction s as [|c s IH]; simpl; [lia|]. destruct (isspace U c); simpl; lia.
Qed.

Lemma rstrip_length (s : str) : length (rstrip U s) <= length s.
Proof.
  induction s as [|c s IH]; simpl; [lia|].
  destruct (rstrip U s); [destruct (isspace U c)|]; simpl in *; lia.
Qed.

Lemma strip_length (s : str) : length (strip U s) <= length s.
Proof.
  unfold strip. etransitivity; [apply rstrip_length | apply lstrip_length].
Qed.

Lemma lstrip_spaces (w : str) : forallb (isspace U) w = true -> lstrip U w = [].
Proof.
  induction w as [|c w IH]; simpl; [reflexivity|]. intros H.
  apply andb_true_iff in H as [Hc Hw]. rewrite Hc. auto.
Qed.

Lemma strip_spaces (w : str) : forallb (isspace U) w = true -> strip U w = [].
Proof. intros H. unfold strip. now rewrite lstrip_spaces. Qed.

(** The loop returns at the first prefix the caption starts with, and ends
    without a value when there is none. *)
Lemma remove_caption_prefix_loop_first (prefixes : list str) (s : str) :
  remove_caption_prefix_loop U prefixes (VStr s)
  = match first_prefix prefixes s with
    | Some p => strip_prefix U p s
    | None => Return VNone
    end.
Proof.
  unfold first_prefix.
  induction prefixes as [|p rest IH]; simpl; [reflexivity|].
  destruct (startswith s p); [reflexivity | exact IH].
Qed.

Lemma strip_prefix_capitalize (p s : str) :
  strip_prefix U p s
  = match strip U (skipn (length p) s) with
    | [] => Raise IndexError
    | r => Return (VStr (capitalize U r))
    end.
Proof.
  unfold strip_prefix, capitalize.
  destruct (strip U (skipn (length p) s)) as [|c0 tl]; [reflexivity|].
  destruct (islower U c0); reflexivity.
Qed.
End StripFacts.

Lemma find_first {A} (f : A -> bool) (l : list A) (p : A) :
  (forall q, In q l -> q = p \/ f q = false) ->
  In p l -> f p = true -> find f l = Some p.
Proof.
  induction l as [|x l IH]; intros Hall Hin Hp; [destruct Hin|].
  simpl. destruct (Hall x (or_introl eq_refl)) as [->|Hx].
  - now rewrite Hp.
  - rewrite Hx. apply IH; auto.
    + intros q Hq. apply Hall. now right.
    + destruct Hin as [->|Hin]; [congruence | assumption].
Qed.

(** No boilerplate prefix is a proper prefix of another: two of them are
    equal or disagree at some position. *)
Lemma LLAVA_PREFIX_clash (p q : str) :
  In p LLAVA_PREFIX -> In q LLAVA_PREFIX -> q = p \/ clash q p = true.
Proof.
  intros Hp Hq.
  assert (H : forallb (fun p => forallb (fun q => str_eqb q p || clash q p)
                                  LLAVA_PREFIX) LLAVA_PREFIX = true)
    by (vm_compute; reflexivity).
  rewrite forallb_forall in H. specialize (H p Hp).
  rewrite forallb_forall in H. specialize (H q Hq).
  apply orb_true_iff in H as [H|H]; [left; now apply str_eqb_eq | now right].
Qed.

Lemma LLAVA_PREFIX_length (p : str) : In p LLAVA_PREFIX -> 13 <= length p.
Proof.
  intros Hp.
  assert (H : forallb (fun p => (13 <=? length p)%nat) LLAVA_PREFIX = true)
    by (vm_compute; reflexivity).
  rewrite forallb_forall in H. apply Nat.leb_le. now apply H.
Qed.

Lemma first_prefix_app (p w : str) :
  In p LLAVA_PREFIX -> first_prefix LLAVA_PREFIX (p ++ w) = Some p.
Proof.
  intros Hp. unfold first_prefix. apply find_first; auto.
  - intros q Hq. destruct (LLAVA_PREFIX_clash p q Hp Hq) as [->|Hc]; auto.
    right. now apply clash_startswith.
  - apply startswith_app.
Qed.

(** ** Caption normalizer: prefix removal *)

(** What the transform does on a string, case by case: the first matching
    prefix is cut off, the remainder is trimmed and capitalized; an empty
    remainder has no first character; no match gives no value. *)
Lemma remove_caption_prefix_cases (U : Unicode) (s : str) :
  remove_caption_prefix U (VStr s)
  = match first_prefix LLAVA_PREFIX s with
    | Some p =>
        match strip U (skipn (length p) s) with
        | [] => Raise IndexError
        | r => Return (VStr (capitalize U r))
        end
    | None => Return VNone
    end.
Proof.
  unfold remove_caption_prefix. rewrite remove_caption_prefix_loop_first.
  destruct (first_prefix LLAVA_PREFIX s); [apply strip_prefix_capitalize|].
  reflexivity.
Qed.

Lemma capitalize_length (U : Unicode) (r : str) :
  (forall c, length (upper U c) <= 3) ->
  length (capitalize U r) <= length r + 2.
Proof.
  intros Hup. destruct r as [|c0 tl]; simpl; [lia|].
  destruct (islower U c0); simpl; [|lia].
  rewrite length_app. specialize (Hup c0). lia.
Qed.

(** A returned string is shorter than the caption it came from. *)
Lemma remove_caption_prefix_length (U : Unicode) (s y : str) :
  (forall c, length (upper U c) <= 3) ->
  remove_caption_prefix U (VStr s) = Return (VStr y) ->
  length y < length s.
Proof.
  intros Hup H. rewrite remove_caption_prefix_cases in H.
  destruct (first_prefix LLAVA_PREFIX s) as [p|] eqn:Hf; [|discriminate].
  apply find_some in Hf as [Hin Hsw].
  pose proof (LLAVA_PREFIX_length _ Hin) as Hlen.
  pose proof (startswith_length _ _ Hsw) as Hs.
  pose proof (strip_length U (skipn (length p) s)) as Hstrip.
  destruct (strip U (skipn (length p) s)) as [|c0 tl] eqn:Hr; [discriminate|].
  injection H as <-.
  pose proof (capitalize_length U (c0 :: tl) Hup) as Hcap.
  unfold capitalize in Hcap. lia.
Qed.

(** C2 (as amended). Prefix removal is not idempotent. Whenever it returns a
    string, that string is strictly shorter than the caption (a prefix of 13
    characters at least is cut, and the upper-casing adds two at most), so a
    second application never returns what the first returned. *)
Theorem remove_caption_prefix_shortens (U : Unicode) (s y : str) :
  (forall c, length (upper U c) <= 3) ->
  remove_caption_prefix U (VStr s) = Return (VStr y) ->
  length y < length s
  /\ remove_caption_prefix_twice U (VStr s) <> Return (VStr y).
Proof.
  intros Hup H. split.
  - now apply (remove_caption_prefix_length U).
  - unfold remove_caption_prefix_twice. rewrite H. simpl. intros H2.
    apply (remove_caption_prefix_length U y y Hup) in H2. lia.
Qed.

Lemma latin_upper_length (c : char) : length (upper basic_latin c) <= 3.
Proof. simpl. unfold latin_upper. destruct (latin_islower c); simpl; lia. Qed.

(** The scenario caption: 22 characters become 6, and the second
    application does not return them again. *)
Lemma remove_caption_prefix_shortens_witness :
  length (py_str "A cat.") < length (py_str "The video shows a cat.")
  /\ remove_caption_prefix_twice basic_latin
       (VStr (py_str "The video shows a cat."))
     <> Return (VStr (py_str "A cat.")).
Proof.
  apply (remove_caption_prefix_shortens basic_latin).
  - exact latin_upper_length.
  - reflexivity.
Defined.

(** C2 (as stated) fails: one application cuts one prefix, so a caption
    that repeats a prefix is changed again by the second application; and
    once no prefix is left, the second application returns no value. *)
Lemma remove_caption_prefix_not_idempotent :
  remove_caption_prefix basic_latin
    (VStr (py_str "The video shows The video shows a cat."))
  = Return (VStr (py_str "The video shows a cat."))
  /\ remove_caption_prefix_twice basic_latin
       (VStr (py_str "The video shows The video shows a cat."))
     = Return (VStr (py_str "A cat."))
  /\ remove_caption_prefix basic_latin (VStr (py_str "The video shows a cat."))
     = Return (VStr (py_str "A cat."))
  /\ remove_caption_prefix_twice basic_latin
       (VStr (py_str "The video shows a cat."))
     = Return VNone.
Proof. repeat split; vm_compute; reflexivity. Qed.

(** C3. The transform on the scenario of the specification, and on a
    caption that is a bare prefix: the trimmed remainder is empty, and
    reading its first character raises instead of returning it. *)
Theorem remove_caption_prefix_bare_prefix :
  remove_caption_prefix basic_latin (VStr (py_str "The video shows a cat."))
  = Return (VStr (py_str "A cat."))
  /\ first_prefix LLAVA_PREFIX (py_str "The video shows")
     = Some (py_str "The video shows")
  /\ strip basic_latin
       (skipn (length (py_str "The video shows")) (py_str "The video shows"))
     = []
  /\ remove_caption_prefix basic_latin (VStr (py_str "The video shows"))
     = Raise IndexError.
Proof. repeat split; vm_compute; reflexivity. Qed.

(** C9. A caption that starts with none of the prefixes makes the function
    end without a return: the value is [None]. *)
Lemma remove_caption_prefix_no_match (U : Unicode) (s : str) :
  no_prefix LLAVA_PREFIX s = true ->
  remove_caption_prefix U (VStr s) = Return VNone.
Proof.
  intros H. rewrite remove_caption_prefix_cases.
  destruct (first_prefix LLAVA_PREFIX s) as [p|] eqn:Hf; [|reflexivity].
  apply find_some in Hf as [Hin Hsw].
  unfold no_prefix in H. rewrite forallb_forall in H.
  specialize (H p Hin). rewrite Hsw in H. discriminate.
Qed.

(** C10. A known prefix followed by white space only: the transform raises
    [IndexError]. *)
Theorem remove_caption_prefix_raises (U : Unicode) (p w : str) :
  In p LLAVA_PREFIX ->
  forallb (isspace U) w = true ->
  remove_caption_prefix U (VStr (p ++ w)) = Raise IndexError.
Proof.
  intros Hp Hw. rewrite remove_caption_prefix_cases.
  rewrite (first_prefix_app p w Hp).
  rewrite skipn_app, skipn_all, Nat.sub_diag. simpl.
  now rewrite (strip_spaces U w Hw).
Qed.

(** The bare prefix ["The video shows"], with nothing after it. *)
Lemma remove_caption_prefix_raises_witness :
  remove_caption_prefix basic_latin
    (VStr (py_str "The video shows" ++ []))
  = Raise IndexError.
Proof.
  apply (remove_caption_prefix_raises basic_latin).
  - vm_compute. tauto.
  - reflexivity.
Defined.

(** ** Caption normalizer: HTML unescape *)

Lemma take_while_prefix (p : char -> bool) (s : str) :
  s = take_while p s ++ skipn (length (take_while p s)) s.
Proof.
  induction s as [|c s IH]; simpl; [reflexivity|].
  destruct (p c); simpl; [now f_equal | reflexivity].
Qed.

Lemma take_upto_prefix (n : nat) (p : char -> bool) (s : str) :
  s = take_upto n p s ++ skipn (length (take_upto n p s)) s.
Proof.
  revert s. induction n as [|n IH]; intros [|c s]; simpl; try reflexivity.
  destruct (p c); simpl; [f_equal; apply IH | reflexivity].
Qed.

Lemma opt_semicolon_prefix (s : str) :
  s = opt_semicolon s ++ skipn (length (opt_semicolon s)) s.
Proof.
  destruct s as [|c s]; simpl; [reflexivity|].
  destruct (c =? 59)%N; reflexivity.
Qed.

(** A prefix of [s] followed by [;?] is a prefix of [s]. *)
Lemma prefix_then_semicolon (a s : str) :
  s = a ++ skipn (length a) s ->
  s = (a ++ opt_semicolon (skipn (length a) s))
        ++ skipn (length (a ++ opt_semicolon (skipn (length a) s))) s.
Proof.
  intros H. rewrite length_app, Nat.add_comm, <- skipn_skipn, <- app_assoc.
  rewrite <- opt_semicolon_prefix. exact H.
Qed.

Lemma Some_inj {A} (a b : A) : Some a = Some b -> a = b.
Proof. intros H. now injection H. Qed.

(** Group 1 of a match is a non-empty prefix of what follows the ['&']. *)
Lemma charref_group_prefix (rest g : str) :
  charref_group rest = Some g ->
  g <> [] /\ rest = g ++ skipn (length g) rest.
Proof.
  unfold charref_group. destruct rest as [|c r1]; [discriminate|].
  destruct (c =? 35)%N.
  - destruct (take_while is_digit r1) as [|d ds] eqn:Hd.
    + destruct r1 as [|x r2]; [discriminate|].
      destruct ((x =? 120) || (x =? 88))%N; [|discriminate].
      destruct (take_while is_hexdigit r2) as [|h hs] eqn:Hh; [discriminate|].
      intros H. apply Some_inj in H. subst g. split; [discriminate|].
      rewrite <- Hh. cbn [app length skipn]. do 2 f_equal.
      apply prefix_then_semicolon, take_while_prefix.
    + intros H. apply Some_inj in H. subst g. split; [discriminate|].
      rewrite <- Hd. cbn [app length skipn]. f_equal.
      apply prefix_then_semicolon, take_while_prefix.
  - destruct (take_upto 32 is_name_char (c :: r1)) as [|n nm] eqn:Hn;
      [discriminate|].
    intros H. apply Some_inj in H. subst g. split; [discriminate|].
    rewrite <- Hn. apply prefix_then_semicolon, take_upto_prefix.
Qed.

Lemma longest_entity_none (T : HtmlTables) (g : str) (x : nat) :
  (forall y, 2 <= y <= x -> html5 T (firstn y g) = None) ->
  longest_entity T x g = None.
Proof.
  induction x as [|x IH]; intros H; [reflexivity|].
  cbn [longest_entity]. destruct (2 <=? S x) eqn:Hx; [|reflexivity].
  apply Nat.leb_le in Hx. rewrite (H (S x)) by lia.
  apply IH. intros y Hy. apply H. lia.
Qed.

(** A reference that does not decode is replaced by itself. *)
Lemma replace_charref_self (T : HtmlTables) (g : str) :
  g <> [] -> decodes T g = false ->
  replace_charref T g = Return (38%N :: g).
Proof.
  intros Hg Hdec. destruct g as [|c tl]; [contradiction|].
  unfold decodes in Hdec. apply orb_false_iff in Hdec as [Hnum Hname].
  unfold replace_charref. cbn [startswith] in Hnum.
  rewrite andb_true_r in Hnum. rewrite Hnum.
  unfold names_entity in Hname. apply orb_false_iff in Hname as [Hall Hpre].
  destruct (html5 T (c :: tl)); [discriminate|].
  rewrite longest_entity_none; [reflexivity|].
  intros y Hy. destruct (html5 T (firstn y (c :: tl))) eqn:E; [|reflexivity].
  exfalso.
  assert (Hex : existsb
                  (fun x => negb (is_none (html5 T (firstn x (c :: tl)))))
                  (seq 2 (length (c :: tl) - 2)) = true).
  { apply existsb_exists. exists y. split.
    - apply in_seq. lia.
    - now rewrite E. }
  congruence.
Qed.

(** A pass over a string with no reference that decodes changes nothing,
    also when it starts inside a match. *)
Lemma charref_sub_fixed (T : HtmlTables) (s : str) (skip : nat) :
  has_decoding T s = false -> charref_sub T skip s = Return (skipn skip s).
Proof.
  revert skip. induction s as [|c s IH]; intros skip H.
  - destruct skip; reflexivity.
  - cbn [has_decoding] in H. apply orb_false_iff in H as [Hc Hs].
    destruct skip as [|k]; cbn [charref_sub skipn]; [|now apply IH].
    destruct (c =? 38)%N eqn:Hamp.
    + destruct (charref_group s) as [g|] eqn:Hg.
      * destruct (charref_group_prefix s g Hg) as [Hne Hpre].
        rewrite (replace_charref_self T g Hne Hc). cbn [bind].
        rewrite (IH (length g) Hs). cbn [bind].
        apply N.eqb_eq in Hamp. subst c. cbn [app]. now rewrite <- Hpre.
      * rewrite (IH 0 Hs). reflexivity.
    + rewrite (IH 0 Hs). reflexivity.
Qed.

Lemma unescape_fixed (T : HtmlTables) (s : str) :
  has_decoding T s = false -> unescape T s = Return s.
Proof.
  intros H. unfold unescape.
  destruct (negb (contains_char 38%N s)); [reflexivity|].
  apply (charref_sub_fixed T s 0 H).
Qed.

(** C4 (as amended). Unescaping is idempotent on every caption whose
    unescaped form holds no reference that a pass decodes, that is no
    numeric reference and no ['&'] in front of an entity name (a name of
    the table, alone or followed by more name characters): a second pass
    returns the unescaped form unchanged. A ['&'] that starts no such
    reference, as in [AT&T], is in the way of nothing. *)
Theorem unescape_idempotent_when_decoded (T : HtmlTables) (s t : str) :
  unescape T s = Return t ->
  has_decoding T t = false ->
  unescape_twice T s = unescape T s
  /\ html_unescape T (VStr t) = Return (VStr t).
Proof.
  intros Hs Ht. pose proof (unescape_fixed T t Ht) as Hfix. split.
  - unfold unescape_twice. rewrite Hs. cbn [bind]. exact Hfix.
  - cbn [html_unescape]. now rewrite Hfix.
Qed.

(** A caption that unescapes to [AT&T <b>]. *)
Lemma unescape_idempotent_when_decoded_witness :
  unescape_twice entity_excerpt (py_str "AT&amp;T &lt;b&gt;")
  = unescape entity_excerpt (py_str "AT&amp;T &lt;b&gt;")
  /\ html_unescape entity_excerpt (VStr (py_str "AT&T <b>"))
     = Return (VStr (py_str "AT&T <b>")).
Proof.
  apply (unescape_idempotent_when_decoded entity_excerpt
           (py_str "AT&amp;T &lt;b&gt;") (py_str "AT&T <b>")).
  - vm_compute. reflexivity.
  - vm_compute. reflexivity.
Defined.

(** C4 (as stated) fails: an escaped ampersand in front of an entity name
    is decoded to a reference that the second pass decodes again. *)
Lemma unescape_not_idempotent :
  unescape entity_excerpt (py_str "&amp;lt;") = Return (py_str "&lt;")
  /\ unescape_twice entity_excerpt (py_str "&amp;lt;") = Return (py_str "<").
Proof. split; vm_compute; reflexivity. Qed.

(** A decimal reference of more digits than [int] accepts stops the call
    with [ValueError]; a hexadecimal one of any length is decoded. *)
Example unescape_long_reference :
  unescape entity_excerpt (py_str "&#" ++ repeat 49%N 4301 ++ py_str ";")
  = Raise ValueError
  /\ unescape entity_excerpt (py_str "&#x" ++ repeat 48%N 4301 ++ py_str "41;")
     = Return (py_str "A").
Proof. split; vm_compute; reflexivity. Qed.

(** ** Media prober *)

(** C6. On a path with a still-image extension the prober returns one
    frame, the decoded height and width, their quotient as aspect ratio
    when the width is positive, and no frame rate; when the image cannot be
    decoded it returns zeros and two undefined values. It returns in every
    case. *)
Theorem get_video_info_image (U : Unicode) (cv : OpenCV) (path : str) :
  is_image_ext (str_lower U (snd (splitext path))) = true ->
  get_video_info U cv (VStr path)
  = Return
      match imread cv path with
      | None =>
          {| num_frames := 0; height := 0; width := 0;
             aspect_ratio := np_nan; fps := np_nan |}
      | Some (h, w) =>
          {| num_frames := 1; height := h; width := w;
             aspect_ratio :=
               if (0 <? w)%Z
               then PrimFloat.div (float_of_int h) (float_of_int w)
               else np_nan;
             fps := np_nan |}
      end.
Proof.
  intros Hext. simpl. unfold get_video_info_str. rewrite Hext.
  destruct (imread cv path) as [[h w]|]; [|reflexivity].
  unfold video_info_of, truediv.
  destruct (0 <? w)%Z eqn:Hw; [|reflexivity].
  apply Z.ltb_lt in Hw.
  destruct (w =? 0)%Z eqn:Hz; [apply Z.eqb_eq in Hz; lia | reflexivity].
Qed.

(** An image of 1080 by 1920, and an image path that cannot be read. *)
Lemma get_video_info_image_witness :
  get_video_info basic_latin demo_cv2 (VStr (py_str "a.png"))
  = Return {| num_frames := 1; height := 1080; width := 1920;
              aspect_ratio := 0.5625%float; fps := np_nan |}
  /\ get_video_info basic_latin demo_cv2 (VStr (py_str "dir.d/missing.JPG"))
     = Return {| num_frames := 0; height := 0; width := 0;
                 aspect_ratio := np_nan; fps := np_nan |}.
Proof.
  split.
  - exact (get_video_info_image basic_latin demo_cv2 (py_str "a.png")
             eq_refl).
  - exact (get_video_info_image basic_latin demo_cv2
             (py_str "dir.d/missing.JPG") eq_refl).
Defined.

(** ** Output path and the two sort flags *)

(** With [--output] the path is returned at once: none of the flags is
    looked at, the two sort flags included. *)
Lemma get_output_path_explicit (repr : float -> str) (args : Args.t)
  (input_name o : str) :
  Args.output args = Some o ->
  get_output_path repr args input_name = Return o.
Proof. intros H. unfold get_output_path. now rewrite H. Qed.

(** Without [--output] the two sort flags together fail the assertion. *)
Lemma get_output_path_sort_both (repr : float -> str) (args : Args.t)
  (input_name p d a : str) (rest : list str) :
  Args.output args = None ->
  Args.input args = p :: rest ->
  Args.sort_descending args = Some d ->
  Args.sort_ascending args = Some a ->
  get_output_path repr args input_name = Raise AssertionError.
Proof.
  intros Ho Hi Hd Ha. unfold get_output_path.
  rewrite Ho, Hi, Hd, Ha. reflexivity.
Qed.

(** On any platform: with [--output] and both sort flags, once the input
    is loaded and the two sorts return, the file is written. *)
Lemma main_sort_both_with_output (P : Platform) (input o d a : str)
  (frames : list DataFrame) (data d1 d2 : DataFrame) :
  mapM (read_csv P) (glob P input ++ []) = Return frames ->
  pd_concat frames = Return data ->
  sort_values P data d false = Return d1 ->
  sort_values P d1 a true = Return d2 ->
  main P (cli input (Some o) (Some d) (Some a) false false false)
  = Return [(o, d2)].
Proof.
  intros Hread Hcat Hs1 Hs2. unfold main. cbn [cli Args.input flat_map].
  rewrite Hread. cbn [bind]. rewrite Hcat. cbn. rewrite Hs1. cbn.
  rewrite Hs2. reflexivity.
Qed.

(** C1. With both sort flags and [--output], the run does not stop: the
    table is sorted twice and written. Without [--output] the same flags
    stop the run at the assertion. *)
Theorem sort_both_with_output_writes :
  get_output_path (repr_float demo) sort_both_output (py_str "in")
  = Return (py_str "out.csv")
  /\ (exists data,
         main demo sort_both_output = Return [(py_str "out.csv", data)]
         /\ map label (rows data) = [0; 2; 1])
  /\ main demo sort_both = Raise AssertionError.
Proof.
  split; [|split].
  - now apply get_output_path_explicit.
  - eexists. split; vm_compute; reflexivity.
  - vm_compute. reflexivity.
Qed.

(** ** Difference and intersection against a reference table *)

Lemma select_rows_filter (f : Row -> bool) (rs : list Row) :
  select_rows rs (map f rs) = filter f rs.
Proof.
  induction rs as [|r rs IH]; simpl; [reflexivity|].
  rewrite IH. reflexivity.
Qed.

Lemma filter_complement_perm {A} (f : A -> bool) (l : list A) :
  Permutation (filter (fun x => negb (f x)) l ++ filter f l) l.
Proof.
  induction l as [|a l IH]; simpl; [constructor|].
  destruct (f a); simpl.
  - symmetry. etransitivity; [|apply Permutation_middle].
    constructor. now symmetry.
  - now constructor.
Qed.

(** A string is in the reference column exactly when the column holds the
    same string. *)
Lemma isin_str (values : list value) (s : str) :
  isin values (VStr s) = true <-> In (VStr s) values.
Proof.
  unfold isin. rewrite existsb_exists. split.
  - intros [v [Hin Heq]]. destruct v; simpl in Heq; try discriminate.
    apply str_eqb_eq in Heq. now subst.
  - intros Hin. exists (VStr s). split; [assumption|]. simpl.
    now apply str_eqb_eq.
Qed.

(** What the two operations compute: the rows whose path is not, and is,
    in the reference column. *)
Lemma make_difference_filter (data ref : DataFrame) (i : nat)
  (refp : list value) :
  column_index col_path (columns data) = Some i ->
  getitem ref col_path = Return refp ->
  make_difference data ref
  = Return {| columns := columns data;
              rows := filter (fun r => negb (isin refp (cell_at i r)))
                        (rows data) |}
  /\ make_intersection data ref
     = Return {| columns := columns data;
                 rows := filter (fun r => isin refp (cell_at i r))
                           (rows data) |}.
Proof.
  intros Hi Href. unfold make_difference, make_intersection, getitem.
  unfold getitem in Href. rewrite Hi. simpl.
  destruct (column_index col_path (columns ref)); [|discriminate].
  injection Href as <-. simpl. unfold boolean_index.
  rewrite !map_map.
  rewrite (select_rows_filter (fun r => negb (isin _ (cell_at i r)))).
  rewrite (select_rows_filter (fun r => isin _ (cell_at i r))).
  split; reflexivity.
Qed.

(** C7. Against one reference table, the rows the difference keeps and the
    rows the intersection keeps have no row in common, and together they
    are the rows of the dataset; a row with a string path is kept by the
    intersection exactly when the same string is a path of the reference. *)
Theorem difference_intersection_complement (data ref : DataFrame)
  (paths refp : list value) :
  getitem data col_path = Return paths ->
  getitem ref col_path = Return refp ->
  exists diff inter,
    make_difference data ref = Return diff
    /\ make_intersection data ref = Return inter
    /\ (forall r, In r (rows diff) -> In r (rows inter) -> False)
    /\ (forall r, In r (rows data) <-> In r (rows diff) \/ In r (rows inter))
    /\ Permutation (rows diff ++ rows inter) (rows data)
    /\ (forall k r s,
           nth_error (rows data) k = Some r ->
           nth_error paths k = Some (VStr s) ->
           (In r (rows inter) <-> In (VStr s) refp)).
Proof.
  intros Hdata Href. unfold getitem in Hdata.
  destruct (column_index col_path (columns data)) as [i|] eqn:Hi;
    [|discriminate].
  injection Hdata as Hpaths.
  destruct (make_difference_filter data ref i refp Hi Href) as [Hd Hn].
  eexists. eexists. split; [exact Hd|]. split; [exact Hn|]. cbn [rows].
  split; [|split; [|split]].
  - intros r H1 H2. apply filter_In in H1 as [_ H1], H2 as [_ H2].
    rewrite H2 in H1. discriminate.
  - intros r. rewrite !filter_In. split.
    + intros H. destruct (isin refp (cell_at i r)); simpl; auto.
    + intros [[H _]|[H _]]; exact H.
  - apply filter_complement_perm.
  - intros k r s Hr Hp. rewrite <- Hpaths, nth_error_map, Hr in Hp.
    injection Hp as Hp. rewrite filter_In, Hp, isin_str.
    apply nth_error_In in Hr. tauto.
Qed.

(** The three-row table against the two-path reference. *)
Lemma difference_intersection_complement_witness :
  exists diff inter,
    make_difference in_csv ref_csv = Return diff
    /\ make_intersection in_csv ref_csv = Return inter
    /\ (forall r, In r (rows diff) -> In r (rows inter) -> False)
    /\ (forall r,
           In r (rows in_csv) <-> In r (rows diff) \/ In r (rows inter))
    /\ Permutation (rows diff ++ rows inter) (rows in_csv)
    /\ (forall k r s,
           nth_error (rows in_csv) k = Some r ->
           nth_error (map (cell_at 0) (rows in_csv)) k = Some (VStr s) ->
           (In r (rows inter) <-> In (VStr s) (map (cell_at 0) (rows ref_csv)))).
Proof.
  exact (difference_intersection_complement in_csv ref_csv _ _
           eq_refl eq_refl).
Defined.

(** ** Sharding *)

Lemma nth_cumsum (sizes : list nat) (acc i : nat) :
  i < length sizes ->
  nth i (cumsum_from acc sizes) 0 = acc + list_sum (firstn (S i) sizes).
Proof.
  revert acc i. induction sizes as [|a sizes IH]; intros acc i Hi;
    simpl in Hi; [lia|].
  destruct i as [|i]; simpl.
  - lia.
  - rewrite IH by lia. simpl. lia.
Qed.

(** The division points are the running totals of the section sizes. *)
Lemma nth_div_points (sizes : list nat) (i : nat) :
  i <= length sizes ->
  nth i (cumsum (0 :: sizes)) 0 = list_sum (firstn i sizes).
Proof.
  intros Hi. unfold cumsum. simpl. destruct i as [|i]; [reflexivity|].
  now rewrite nth_cumsum by lia.
Qed.

Lemma slices_split_sizes {A} (sizes : list nat) (l : list A) :
  map (fun i => firstn (nth i sizes 0) (skipn (list_sum (firstn i sizes)) l))
      (seq 0 (length sizes))
  = split_sizes sizes l.
Proof.
  revert l. induction sizes as [|a sizes IH]; intros l; [reflexivity|].
  cbn [length seq map split_sizes]. f_equal.
  rewrite <- seq_shift, map_map. rewrite <- IH.
  apply map_ext. intros i. cbn [nth firstn list_sum].
  now rewrite skipn_skipn, Nat.add_comm.
Qed.

Lemma firstn_plus {A} (a b : nat) (l : list A) :
  firstn (a + b) l = firstn a l ++ firstn b (skipn a l).
Proof.
  revert l. induction a as [|a IH]; intros l; [reflexivity|].
  destruct l as [|x l]; simpl; [now rewrite firstn_nil|].
  now rewrite IH.
Qed.

Lemma concat_split_sizes {A} (sizes : list nat) (l : list A) :
  concat (split_sizes sizes l) = firstn (list_sum sizes) l.
Proof.
  revert l. induction sizes as [|a sizes IH]; intros l; [reflexivity|].
  simpl. now rewrite IH, firstn_plus.
Qed.

Lemma length_split_sizes {A} (sizes : list nat) (l : list A) :
  list_sum sizes <= length l ->
  map (@length A) (split_sizes sizes l) = sizes.
Proof.
  revert l. induction sizes as [|a sizes IH]; intros l H; [reflexivity|].
  simpl in *. rewrite IH by (rewrite length_skipn; lia).
  rewrite length_firstn. f_equal. lia.
Qed.

Lemma list_sum_repeat (k n : nat) : list_sum (repeat k n) = n * k.
Proof. induction n as [|n IH]; simpl; [reflexivity | now rewrite IH]. Qed.

Lemma section_sizes_length (Ntotal Nsections : nat) :
  0 < Nsections -> length (section_sizes Ntotal Nsections) = Nsections.
Proof.
  intros H. unfold section_sizes. rewrite length_app, !repeat_length.
  pose proof (Nat.mod_upper_bound Ntotal Nsections). lia.
Qed.

Lemma section_sizes_sum (Ntotal Nsections : nat) :
  0 < Nsections -> list_sum (section_sizes Ntotal Nsections) = Ntotal.
Proof.
  intros H. unfold section_sizes.
  rewrite list_sum_app, !list_sum_repeat.
  pose proof (Nat.mod_upper_bound Ntotal Nsections ltac:(lia)) as Hm.
  pose proof (Nat.div_mod_eq Ntotal Nsections) as Hd. nia.
Qed.

Lemma section_sizes_near (Ntotal Nsections k : nat) :
  In k (section_sizes Ntotal Nsections) ->
  k = Ntotal / Nsections \/ k = S (Ntotal / Nsections).
Proof.
  unfold section_sizes. intros H. apply in_app_or in H as [H|H];
    apply repeat_spec in H; auto.
Qed.

Lemma list_sum_firstn_S (sizes : list nat) (i : nat) :
  list_sum (firstn (S i) sizes) = list_sum (firstn i sizes) + nth i sizes 0.
Proof.
  revert i. induction sizes as [|a sizes IH]; intros [|i]; simpl; try lia.
  specialize (IH i). simpl in IH. lia.
Qed.

(** [np.array_split] cuts the rows one section after the other. *)
Lemma array_split_split_sizes {A} (ary : list A) (N : Z) :
  (0 < N)%Z ->
  array_split ary N
  = Return (split_sizes (section_sizes (length ary) (Z.to_nat N)) ary).
Proof.
  intros HN. unfold array_split.
  destruct (N <=? 0)%Z eqn:Hle; [apply Z.leb_le in Hle; lia|]. f_equal.
  set (sizes := section_sizes (length ary) (Z.to_nat N)).
  assert (Hlen : length sizes = Z.to_nat N)
    by (apply section_sizes_length; lia).
  rewrite <- slices_split_sizes, Hlen.
  apply map_ext_in. intros i Hi. apply in_seq in Hi.
  rewrite !nth_div_points by lia. unfold slice.
  rewrite list_sum_firstn_S. f_equal. lia.
Qed.

Lemma split_sizes_length {A} (sizes : list nat) (l : list A) :
  length (split_sizes sizes l) = length sizes.
Proof.
  revert l. induction sizes as [|a sizes IH]; intros l; simpl; auto.
Qed.

Lemma map_snd_combine_eq {A B} (l1 : list A) (l2 : list B) :
  length l1 = length l2 -> map snd (combine l1 l2) = l2.
Proof.
  revert l2. induction l1 as [|a l1 IH]; intros [|b l2] H; simpl in *;
    try discriminate; [reflexivity|].
  f_equal. apply IH. lia.
Qed.

(** C8. For a shard count [N >= 1] the shard stage writes [N] tables that
    are consecutive blocks of the rows, in row order: put one after the
    other in shard order they are the rows of the dataset, and two shards
    differ by one row at most. *)
Theorem shards_partition_rows (data : DataFrame) (N : Z) (output_path : str) :
  (0 < N)%Z ->
  exists files,
    write_output (Some N) output_path data = Return files
    /\ length files = Z.to_nat N
    /\ map (fun f => rows (snd f)) files
       = split_sizes (section_sizes (df_len data) (Z.to_nat N)) (rows data)
    /\ flat_map (fun f => rows (snd f)) files = rows data
    /\ (forall f g, In f files -> In g files ->
                    df_len (snd f) <= df_len (snd g) + 1)
    /\ (forall f, In f files -> columns (snd f) = columns data).
Proof.
  intros HN. unfold write_output.
  rewrite (array_split_split_sizes (rows data) N HN). cbn [bind].
  fold (df_len data).
  set (sizes := section_sizes (df_len data) (Z.to_nat N)).
  set (shards := split_sizes sizes (rows data)).
  assert (Hsz : length sizes = Z.to_nat N)
    by (apply section_sizes_length; lia).
  assert (Hsh : length shards = Z.to_nat N)
    by (unfold shards; now rewrite split_sizes_length).
  assert (Hsum : list_sum sizes = length (rows data))
    by (apply section_sizes_sum; lia).
  match goal with
  | |- exists files, Return ?X = _ /\ _ => set (files := X)
  end.
  exists files. split; [reflexivity|].
  assert (Hrows : map (fun f => rows (snd f)) files = shards).
  { unfold files. rewrite map_map. cbn [snd rows].
    apply map_snd_combine_eq. now rewrite length_seq. }
  assert (Hin : forall h, In h files -> In (df_len (snd h)) sizes).
  { intros h Hh.
    apply (in_map (fun f => rows (snd f))) in Hh. rewrite Hrows in Hh.
    apply (in_map (@length Row)) in Hh. unfold shards in Hh.
    rewrite length_split_sizes in Hh by lia. exact Hh. }
  split; [|split; [exact Hrows|split; [|split]]].
  - unfold files.
    now rewrite length_map, length_combine, length_seq, Hsh, Nat.min_id.
  - rewrite flat_map_concat_map, Hrows. unfold shards.
    rewrite concat_split_sizes, Hsum. apply firstn_all.
  - intros f g Hf Hg.
    apply Hin, section_sizes_near in Hf. apply Hin, section_sizes_near in Hg.
    lia.
  - intros f Hf. unfold files in Hf.
    apply in_map_iff in Hf as [ix [<- _]]. reflexivity.
Qed.

(** Three rows in two shards. *)
Lemma shards_partition_rows_witness :
  exists files,
    write_output (Some 2%Z) (py_str "out.csv") in_csv = Return files
    /\ length files = Z.to_nat 2
    /\ map (fun f => rows (snd f)) files
       = split_sizes (section_sizes (df_len in_csv) (Z.to_nat 2))
           (rows in_csv)
    /\ flat_map (fun f => rows (snd f)) files = rows in_csv
    /\ (forall f g, In f files -> In g files ->
                    df_len (snd f) <= df_len (snd g) + 1)
    /\ (forall f, In f files -> columns (snd f) = columns in_csv).
Proof.
  apply (shards_partition_rows in_csv 2 (py_str "out.csv")). reflexivity.
Defined.

Example shards_of_three_rows :
  option_map (map (fun f : Written => (fst f, map label (rows (snd f)))))
    (match write_output (Some 2%Z) (py_str "out.csv") in_csv with
     | Return files => Some files
     | Raise _ => None
     end)
  = Some [(py_str "out_0.csv", [0; 1]); (py_str "out_1.csv", [2])].
Proof. vm_compute. reflexivity. Qed.

(** A shard count that is not positive stops the run in [np.array_split]:
    nothing is written. *)
Lemma shard_count_not_positive (data : DataFrame) (N : Z) (output_path : str) :
  (N <= 0)%Z -> write_output (Some N) output_path data = Raise ValueError.
Proof.
  intros H. unfold write_output, array_split.
  apply Z.leb_le in H. now rewrite H.
Qed.

(** ** Column processing in the driver *)

Lemma column_index_lt (name : str) (cols : list str) (i : nat) :
  column_index name cols = Some i -> i < length cols.
Proof.
  revert i. induction cols as [|c cols IH]; intros i H; simpl in *;
    [discriminate|].
  destruct (str_eqb name c).
  - injection H as <-. lia.
  - destruct (column_index name cols) as [j|]; [|discriminate].
    injection H as <-. specialize (IH j eq_refl). lia.
Qed.

Lemma column_index_has (data : DataFrame) (name : str) (i : nat) :
  column_index name (columns data) = Some i -> has_column data name = true.
Proof.
  unfold has_column. generalize (columns data). intros cols. revert i.
  induction cols as [|c cols IH]; intros i H; simpl in *; [discriminate|].
  destruct (str_eqb name c); [reflexivity|]. simpl.
  destruct (column_index name cols) as [j|]; [|discriminate]. now apply (IH j).
Qed.

Lemma nth_replace_nth {A} (i : nat) (x d : A) (l : list A) :
  i < length l -> nth i (replace_nth i x l) d = x.
Proof.
  revert i. induction l as [|y l IH]; intros i H; simpl in H; [lia|].
  destruct i as [|i]; simpl; [reflexivity|]. apply IH. lia.
Qed.

Lemma mapM_nth_error {A B} (f : A -> result B) (xs : list A) (ys : list B) :
  mapM f xs = Return ys ->
  length ys = length xs
  /\ forall i x, nth_error xs i = Some x ->
                 exists y, nth_error ys i = Some y /\ f x = Return y.
Proof.
  revert ys. induction xs as [|x xs IH]; intros ys H; simpl in H.
  - injection H as <-. split; [reflexivity|]. intros [|i] x Hx; discriminate.
  - destruct (f x) as [y|] eqn:Hy; [|discriminate]. simpl in H.
    destruct (mapM f xs) as [ys'|]; [|discriminate]. simpl in H.
    injection H as <-. destruct (IH ys' eq_refl) as [Hlen Hnth].
    split; [simpl; now rewrite Hlen|].
    intros [|i] x' Hx'; simpl in *.
    + injection Hx' as <-. now exists y.
    + now apply Hnth.
Qed.

(** Reading a column back after it was assigned. *)
Lemma getitem_setitem (data : DataFrame) (name : str) (vals : list value)
  (i : nat) :
  well_formed data = true ->
  column_index name (columns data) = Some i ->
  length vals = length (rows data) ->
  getitem (setitem data name vals) name = Return vals.
Proof.
  intros Hwf Hi Hlen. unfold setitem, getitem. rewrite Hi. cbn [columns rows].
  rewrite Hi. f_equal. rewrite map_map. unfold cell_at. cbn [cells].
  pose proof (column_index_lt _ _ _ Hi) as Hlt.
  unfold well_formed in Hwf. rewrite forallb_forall in Hwf.
  revert vals Hlen Hwf. generalize (rows data).
  induction l as [|r rs IH]; intros [|v vals] Hlen Hwf; simpl in *;
    try discriminate; [reflexivity|].
  f_equal.
  - apply nth_replace_nth.
    specialize (Hwf r (or_introl eq_refl)). apply Nat.eqb_eq in Hwf. lia.
  - apply IH; [lia|]. intros x Hx. apply Hwf. now right.
Qed.



(** ** Scenarios of the specification, run on the small platform *)

(** [--remove-empty-caption --remove-caption-prefix --ext]: only the second
    row is written, with the text ["A cat."]; the output path is made of
    the input name and one suffix per option. *)
Example scenario_run :
  main demo scenario
  = Return
      [ (py_str "data/scenario_ext_noempty_rcp.csv",
         {| columns := [col_path; col_text];
            rows := [mk_row 1 [VStr (py_str "b.mp4");
                               VStr (py_str "A cat.")]] |}) ].
Proof. vm_compute. reflexivity. Qed.

(** [--fmin 10 --fmax 100] on frame counts 5, 10, 50, 150 keeps 10 and 50. *)
Example frame_bounds_run :
  (data <- filter_threshold col_num_frames (ge_int 10)
             {| columns := [col_num_frames];
                rows := [mk_row 0 [VInt 5]; mk_row 1 [VInt 10];
                         mk_row 2 [VInt 50]; mk_row 3 [VInt 150]] |} ;;
   filter_threshold col_num_frames (le_int 100) data)
  = Return {| columns := [col_num_frames];
              rows := [mk_row 1 [VInt 10]; mk_row 2 [VInt 50]] |}.
Proof. vm_compute. reflexivity. Qed.

(** A threshold on a column the table lacks stops the run. *)
Example missing_column_run :
  filter_threshold col_match (ge_float 0.5%float) in_csv
  = Raise AssertionError.
Proof. vm_compute. reflexivity. Qed.

(** * Further properties of the driver *)

(** ** Loading *)

(** X1. When no input pattern matches a file, the run stops in [pd.concat]
    with [ValueError], before anything is written. *)
Theorem main_no_input_file (P : Platform) (args : Args.t) :
  flat_map (glob P) (Args.input args) = [] ->
  main P args = Raise ValueError.
Proof.
  intros H. unfold main. rewrite H. reflexivity.
Qed.

(** Patterns that match nothing, on the small platform. *)
Lemma main_no_input_file_witness : main demo_no_match no_option = Raise ValueError.
Proof. apply main_no_input_file. reflexivity. Defined.

Lemma relabel_length (all : list (list value)) :
  length (relabel all) = length all.
Proof.
  unfold relabel. rewrite length_map, length_combine, length_seq.
  apply Nat.min_id.
Qed.

Lemma relabel_labels (all : list (list value)) :
  map label (relabel all) = seq 0 (length all).
Proof.
  unfold relabel. rewrite map_map. cbn [label].
  generalize 0. induction all as [|x all IH]; intros n; [reflexivity|].
  simpl. f_equal. apply IH.
Qed.

Lemma union_columns_incl (frames : list DataFrame) (acc : list str) :
  incl acc
    (fold_left
       (fun acc df =>
          acc ++ filter (fun c => negb (existsb (str_eqb c) acc)) (columns df))
       frames acc)
  /\ forall df, In df frames ->
       incl (columns df)
         (fold_left
            (fun acc df =>
               acc ++ filter (fun c => negb (existsb (str_eqb c) acc))
                        (columns df))
            frames acc).
Proof.
  revert acc. induction frames as [|f frames IH]; intros acc; simpl.
  - split; [apply incl_refl | intros df []].
  - destruct (IH (acc ++ filter (fun c => negb (existsb (str_eqb c) acc))
                      (columns f))) as [Hacc Hin].
    split.
    + intros c Hc. apply Hacc, in_or_app. now left.
    + intros df [<-|Hdf]; [|now apply Hin].
      intros c Hc. apply Hacc, in_or_app.
      destruct (existsb (str_eqb c) acc) eqn:He.
      * left. apply existsb_exists in He as [c' [Hc' Heq]].
        apply str_eqb_eq in Heq. now subst.
      * right. apply filter_In. split; [assumption|]. now rewrite He.
Qed.

Lemma concat_rows_length (cols : list str) (frames : list DataFrame) :
  length (flat_map (fun df => map (reindex_row (columns df) cols) (rows df))
            frames)
  = list_sum (map (fun data => length (rows data)) frames).
Proof.
  induction frames as [|g l IH]; [reflexivity|].
  cbn [flat_map map list_sum]. now rewrite length_app, length_map, IH.
Qed.

(** X2. The concatenation of the input tables has as many rows as the
    tables together, labelled 0, 1, 2, ... in order, and every column of
    every table. *)
Theorem pd_concat_rows (frames : list DataFrame) (data : DataFrame) :
  pd_concat frames = Return data ->
  df_len data = list_sum (map df_len frames)
  /\ map label (rows data) = seq 0 (df_len data)
  /\ forall df, In df frames -> incl (columns df) (columns data).
Proof.
  intros H. unfold pd_concat in H.
  destruct frames as [|f frames]; [discriminate|].
  injection H as <-. unfold df_len. cbn [rows columns].
  rewrite relabel_length, relabel_labels. split; [|split].
  - exact (concat_rows_length (union_columns (f :: frames)) (f :: frames)).
  - reflexivity.
  - apply union_columns_incl.
Qed.

(** The three-row table and the reference table together: five rows. *)
Lemma pd_concat_rows_witness :
  exists data,
    pd_concat [in_csv; ref_csv] = Return data
    /\ df_len data = 5
    /\ map label (rows data) = [0; 1; 2; 3; 4].
Proof.
  eexists. split; [reflexivity|].
  destruct (pd_concat_rows [in_csv; ref_csv] _ eq_refl) as [H1 [H2 _]].
  split; [exact H1 | exact H2].
Defined.

(** ** Row filters *)

Lemma sublist_nil_l {A} (l : list A) : sublist [] l.
Proof. induction l; constructor; assumption. Qed.

Lemma sublist_trans {A} (a b c : list A) :
  sublist a b -> sublist b c -> sublist a c.
Proof.
  intros Hab Hbc. revert a Hab.
  induction Hbc as [|x b c Hbc IH|x b c Hbc IH]; intros a Hab.
  - exact Hab.
  - constructor. now apply IH.
  - inversion Hab; subst; constructor; now apply IH.
Qed.

Lemma sublist_filter {A} (f : A -> bool) (l : list A) : sublist (filter f l) l.
Proof.
  induction l as [|x l IH]; simpl; [constructor|].
  destruct (f x); constructor; assumption.
Qed.

Lemma select_rows_sublist (rs : list Row) (mask : list bool) :
  sublist (select_rows rs mask) rs.
Proof.
  revert mask. induction rs as [|r rs IH]; intros [|b mask]; simpl;
    try apply sublist_nil_l.
  destruct b; constructor; apply IH.
Qed.

Lemma boolean_index_drops (data : DataFrame) (mask : list bool) :
  columns (boolean_index data mask) = columns data
  /\ sublist (rows (boolean_index data mask)) (rows data).
Proof. split; [reflexivity | apply select_rows_sublist]. Qed.

(** Runs through the binds of a stage that returned. *)
Ltac returned H :=
  repeat match type of H with
         | bind ?m _ = Return _ =>
             let E := fresh "E" in
             destruct m eqn:E; cbn [bind] in H; [|discriminate H]
         end.

Lemma mapM_length {A B} (f : A -> result B) (xs : list A) (ys : list B) :
  mapM f xs = Return ys -> length ys = length xs.
Proof. intros H. now apply mapM_nth_error in H as [H _]. Qed.

Lemma Return_inj {A} (a b : A) : Return a = Return b -> a = b.
Proof. intros H. now injection H. Qed.

Lemma getitem_index (data : DataFrame) (name : str) (i : nat) :
  column_index name (columns data) = Some i ->
  getitem data name = Return (map (cell_at i) (rows data)).
Proof. intros H. unfold getitem. now rewrite H. Qed.

Lemma getitem_returned (data : DataFrame) (name : str) (col : list value) :
  getitem data name = Return col ->
  exists i, column_index name (columns data) = Some i
            /\ col = map (cell_at i) (rows data).
Proof.
  unfold getitem. destruct (column_index name (columns data)) as [i|];
    [|discriminate].
  intros H. injection H as <-. now exists i.
Qed.

(** A stage made of binds and one or two [data[mask]] only drops rows. *)
Ltac drops_rows :=
  let data := fresh "data" in
  let data' := fresh "data'" in
  let H := fresh "H" in
  intros data data' H;
  unfold filter_empty_caption, filter_url, filter_threshold,
    make_difference, make_intersection, apply in H;
  returned H; injection H as <-;
  first [ apply boolean_index_drops
        | split; [reflexivity
                 | eapply sublist_trans; apply select_rows_sublist] ].

(** [data[mask]] for a mask that [apply] made from a column of the table. *)
Lemma applied_index_drops (data : DataFrame) (name : str)
  (col : list value) (test : value -> result bool) (mask : list bool) :
  getitem data name = Return col ->
  mapM test col = Return mask ->
  sublist (rows (applied_index data mask)) (rows data)
  /\ (rows data <> [] -> columns (applied_index data mask) = columns data)
  /\ (rows data = [] -> columns (applied_index data mask) = []).
Proof.
  intros Hcol Hmask. apply mapM_length in Hmask.
  assert (Hlen : length mask = length (rows data)).
  { apply getitem_returned in Hcol as [i [_ ->]].
    now rewrite Hmask, length_map. }
  destruct mask as [|b mask]; cbn [applied_index].
  - destruct (rows data); [|discriminate]. cbn [rows columns].
    split; [constructor|]. split; [intros H; now destruct H | reflexivity].
  - split; [apply select_rows_sublist|].
    split; [reflexivity|]. intros H. rewrite H in Hlen. discriminate.
Qed.

(** X3. Every filter of the driver only drops rows: the rows of the table
    it returns are rows of its input, unchanged and in their order. The
    filters whose mask is a comparison or a membership test keep the
    columns. [--ext] and [--lang], whose mask comes from [apply], keep the
    columns of a table that has a row; on a table with no row they return
    a table with no column. *)
Theorem filters_only_drop_rows (P : Platform) :
  drops_rows_applied (filter_ext P)
  /\ only_drops_rows filter_empty_caption
  /\ only_drops_rows (filter_url P)
  /\ (forall detect, drops_rows_applied (filter_lang detect))
  /\ (forall name test, only_drops_rows (filter_threshold name test))
  /\ (forall ref, only_drops_rows (fun data => make_difference data ref))
  /\ (forall ref, only_drops_rows (fun data => make_intersection data ref)).
Proof.
  split.
  { intros data data' H. unfold filter_ext, apply in H. returned H.
    apply Return_inj in H. subst data'.
    eapply applied_index_drops; eassumption. }
  split; [drops_rows|]. split; [drops_rows|]. split.
  { intros detect data data' H. unfold filter_lang in H. returned H.
    apply Return_inj in H. subst data'.
    eapply applied_index_drops; eassumption. }
  split; [intros name test; drops_rows|].
  split; intros ref; drops_rows.
Qed.

(** On the three-row table, [--ext] keeps the two rows whose files exist;
    on a table with no row it leaves no column. *)
Lemma filters_only_drop_rows_witness :
  (exists data',
      filter_ext demo in_csv = Return data'
      /\ sublist (rows data') (rows in_csv)
      /\ columns data' = columns in_csv)
  /\ filter_ext demo {| columns := [col_path; col_text]; rows := [] |}
     = Return {| columns := []; rows := [] |}.
Proof.
  split; [|reflexivity].
  eexists. split; [reflexivity|].
  destruct (proj1 (filters_only_drop_rows demo) in_csv _ eq_refl)
    as [Hsub [Hcols _]].
  split; [exact Hsub|]. apply Hcols. discriminate.
Defined.

Lemma filter_filter {A} (f g : A -> bool) (l : list A) :
  filter g (filter f l) = filter (fun x => f x && g x) l.
Proof.
  induction l as [|x l IH]; simpl; [reflexivity|].
  destruct (f x); simpl; [destruct (g x)|]; now rewrite IH.
Qed.

Lemma mapM_mask {A} (test : A -> result bool) (xs : list A)
  (mask : list bool) :
  mapM test xs = Return mask ->
  mask = map (fun x => match test x with Return b => b | Raise _ => false end)
           xs
  /\ forall x, In x xs -> exists b, test x = Return b.
Proof.
  revert mask. induction xs as [|x xs IH]; intros mask H; simpl in H.
  - injection H as <-. split; [reflexivity | intros x []].
  - destruct (test x) as [b|] eqn:Hb; [|discriminate]. cbn [bind] in H.
    destruct (mapM test xs) as [m|]; [|discriminate]. cbn [bind] in H.
    injection H as <-. destruct (IH m eq_refl) as [-> Hall]. split.
    + simpl. now rewrite Hb.
    + intros y [<-|Hy]; [now exists b | now apply Hall].
Qed.

Lemma mapM_returns {A} (test : A -> result bool) (xs : list A) :
  (forall x, In x xs -> exists b, test x = Return b) ->
  mapM test xs
  = Return (map (fun x => match test x with Return b => b | Raise _ => false end)
              xs).
Proof.
  induction xs as [|x xs IH]; intros H; simpl; [reflexivity|].
  destruct (H x (or_introl eq_refl)) as [b Hb]. rewrite Hb. cbn [bind].
  rewrite IH by (intros y Hy; apply H; now right). reflexivity.
Qed.

(** What a threshold filter that returns has computed. *)
Lemma filter_threshold_rows (name : str) (test : value -> result bool)
  (data data' : DataFrame) :
  filter_threshold name test data = Return data' ->
  exists i,
    column_index name (columns data) = Some i
    /\ data' = {| columns := columns data;
                  rows := filter (fun r => passes test (cell_at i r))
                            (rows data) |}
    /\ forall r, In r (rows data) -> exists b, test (cell_at i r) = Return b.
Proof.
  intros H. unfold filter_threshold in H. returned H. injection H as <-.
  apply getitem_returned in E0 as [i [Hi ->]]. exists i.
  split; [assumption|]. apply mapM_mask in E1 as [-> Hall]. split.
  - unfold boolean_index. f_equal. rewrite map_map.
    apply (select_rows_filter (fun r => passes test (cell_at i r))).
  - intros r Hr. apply Hall. now apply in_map.
Qed.

(** When a threshold filter returns. *)
Lemma filter_threshold_returns (name : str) (test : value -> result bool)
  (data : DataFrame) (i : nat) :
  column_index name (columns data) = Some i ->
  (forall r, In r (rows data) -> exists b, test (cell_at i r) = Return b) ->
  filter_threshold name test data
  = Return {| columns := columns data;
              rows := filter (fun r => passes test (cell_at i r))
                        (rows data) |}.
Proof.
  intros Hi Hall. unfold filter_threshold.
  rewrite (column_index_has data name i Hi). cbn [py_assert bind].
  rewrite (getitem_index data name i Hi). cbn [bind].
  rewrite mapM_returns.
  - cbn [bind]. unfold boolean_index. do 2 f_equal. rewrite map_map.
    apply (select_rows_filter (fun r => passes test (cell_at i r))).
  - intros v Hv. apply in_map_iff in Hv as [r [<- Hr]]. now apply Hall.
Qed.

Lemma ge_le_int_return (a b : Z) (v : value) :
  (exists x, ge_int a v = Return x) <-> (exists y, le_int b v = Return y).
Proof.
  destruct v; simpl; split; intros [x H]; try discriminate; eexists;
    reflexivity.
Qed.

(** X4. For bounds that a double holds exactly (up to 2^53 in absolute
    value), [--fmin a --fmax b] keeps exactly the rows whose frame count
    passes both bounds (for an integer count [z]: [a <= z <= b], both
    inclusive), and the two filters commute: applied in the other order
    they return the same table. *)
Theorem frame_bounds_commute (a b : Z) (data data' : DataFrame) :
  exact_double a = true ->
  exact_double b = true ->
  (d1 <- filter_threshold col_num_frames (ge_int a) data ;;
   filter_threshold col_num_frames (le_int b) d1) = Return data' ->
  (exists i,
      column_index col_num_frames (columns data) = Some i
      /\ rows data'
         = filter (fun r => in_frame_range a b (cell_at i r)) (rows data))
  /\ (forall z, in_frame_range a b (VInt z) = ((a <=? z) && (z <=? b))%Z)
  /\ (d1 <- filter_threshold col_num_frames (le_int b) data ;;
      filter_threshold col_num_frames (ge_int a) d1) = Return data'.
Proof.
  intros _ _ H. returned H.
  apply filter_threshold_rows in E as [i [Hi [-> Hge]]].
  apply filter_threshold_rows in H as [j [Hj [-> _]]].
  cbn [columns rows] in *. rewrite Hi in Hj. injection Hj as <-.
  assert (Hle : forall r, In r (rows data) ->
                          exists y, le_int b (cell_at i r) = Return y)
    by (intros r Hr; apply (ge_le_int_return a b), Hge, Hr).
  split; [|split].
  - exists i. split; [assumption|]. rewrite filter_filter.
    apply filter_ext_in. intros r Hr. unfold passes, in_frame_range.
    destruct (Hge r Hr) as [x ->]. destruct (Hle r Hr) as [y ->]. reflexivity.
  - reflexivity.
  - rewrite (filter_threshold_returns _ _ data i Hi Hle). cbn [bind].
    rewrite (filter_threshold_returns _ _ _ i).
    + cbn [columns rows]. rewrite !filter_filter. do 2 f_equal.
      apply List.filter_ext. intros r. apply andb_comm.
    + exact Hi.
    + cbn [rows]. intros r Hr. apply filter_In in Hr as [Hr _].
      now apply Hge.
Qed.

(** Frame counts 5, 10, 50, 150 with [--fmin 10 --fmax 100]. *)
Lemma frame_bounds_commute_witness :
  exists data',
    (d1 <- filter_threshold col_num_frames (le_int 100)
             {| columns := [col_num_frames];
                rows := [mk_row 0 [VInt 5]; mk_row 1 [VInt 10];
                         mk_row 2 [VInt 50]; mk_row 3 [VInt 150]] |} ;;
     filter_threshold col_num_frames (ge_int 10) d1) = Return data'
    /\ map label (rows data') = [1; 2].
Proof.
  eexists. split.
  - exact (proj2 (proj2 (frame_bounds_commute 10 100
             {| columns := [col_num_frames];
                rows := [mk_row 0 [VInt 5]; mk_row 1 [VInt 10];
                         mk_row 2 [VInt 50]; mk_row 3 [VInt 150]] |}
             _ eq_refl eq_refl eq_refl))).
  - reflexivity.
Defined.

Lemma filter_implied {A} (f g : A -> bool) (l : list A) :
  (forall x, f x = true -> g x = true) -> filter g (filter f l) = filter f l.
Proof.
  intros H. rewrite filter_filter. apply List.filter_ext. intros x.
  destruct (f x) eqn:Hf; [|reflexivity]. now rewrite (H x Hf).
Qed.

Lemma filter_excluded {A} (f g : A -> bool) (l : list A) :
  (forall x, f x = true -> g x = false) -> filter g (filter f l) = [].
Proof.
  intros H. rewrite filter_filter. induction l as [|x l IH]; [reflexivity|].
  simpl. destruct (f x) eqn:Hf; simpl; [rewrite (H x Hf)|]; exact IH.
Qed.

(** X5. After [--remove-empty-caption] every caption that is left is a
    string of one character at least: the rows kept are those with such a
    caption, in their order, so the second mask of the stage (the one that
    drops missing captions) has nothing left to drop. *)
Theorem filter_empty_caption_rows (data data' : DataFrame) :
  filter_empty_caption data = Return data' ->
  exists i,
    column_index col_text (columns data) = Some i
    /\ columns data' = columns data
    /\ rows data' = filter (fun r => str_len_positive (cell_at i r)) (rows data)
    /\ Forall (fun r => exists c s, cell_at i r = VStr (c :: s)) (rows data').
Proof.
  intros H. unfold filter_empty_caption in H. returned H. injection H as <-.
  apply getitem_returned in E0 as [i [Hi ->]].
  apply getitem_returned in E1 as [j [Hj ->]].
  cbn [boolean_index columns rows] in *. rewrite Hi in Hj. injection Hj as <-.
  exists i. split; [assumption|]. split; [reflexivity|].
  rewrite !map_map.
  rewrite (select_rows_filter (fun r => str_len_positive (cell_at i r))).
  rewrite (select_rows_filter (fun r => negb (isna (cell_at i r)))).
  rewrite filter_implied.
  - split; [reflexivity|]. apply Forall_forall. intros r Hr.
    apply filter_In in Hr as [_ Hr].
    destruct (cell_at i r) as [[|c s]| | | |]; try discriminate.
    now exists c, s.
  - intros r Hr. destruct (cell_at i r); try discriminate. reflexivity.
Qed.

(** The table of the scenario: the missing caption is dropped. *)
Lemma filter_empty_caption_rows_witness :
  exists data',
    filter_empty_caption scenario_csv = Return data'
    /\ map label (rows data') = [1; 2].
Proof.
  eexists. split; [reflexivity|].
  destruct (filter_empty_caption_rows scenario_csv _ eq_refl)
    as [i [Hi [_ [Hrows _]]]].
  injection Hi as <-. rewrite Hrows. reflexivity.
Defined.

(** X6. Difference and intersection against the same reference table, one
    after the other as the driver applies them, leave no row; and the
    difference applied a second time drops nothing more. *)
Theorem difference_then_intersection (data ref : DataFrame)
  (paths refp : list value) :
  getitem data col_path = Return paths ->
  getitem ref col_path = Return refp ->
  exists diff,
    make_difference data ref = Return diff
    /\ make_intersection diff ref
       = Return {| columns := columns data; rows := [] |}
    /\ make_difference diff ref = Return diff.
Proof.
  intros Hdata Href. apply getitem_returned in Hdata as [i [Hi _]].
  destruct (make_difference_filter data ref i refp Hi Href) as [Hd _].
  eexists. split; [exact Hd|].
  match goal with
  | |- make_intersection ?d _ = _ /\ _ =>
      destruct (make_difference_filter d ref i refp Hi Href) as [Hd2 Hi2]
  end.
  rewrite Hd2, Hi2. cbn [columns rows]. split; do 2 f_equal.
  - apply filter_excluded. intros r Hr. now apply negb_true_iff in Hr.
  - apply filter_implied. auto.
Qed.

(** The three-row table against the two-path reference. *)
Lemma difference_then_intersection_witness :
  exists diff,
    make_difference in_csv ref_csv = Return diff
    /\ make_intersection diff ref_csv
       = Return {| columns := columns in_csv; rows := [] |}
    /\ make_difference diff ref_csv = Return diff.
Proof.
  exact (difference_then_intersection in_csv ref_csv _ _ eq_refl eq_refl).
Defined.

(** ** Media prober *)

(** X7. On a string path the prober returns in every case, for a video as
    for an image: the quotient is only taken when the width is positive,
    so no division by zero is raised, and the aspect ratio is undefined
    when the width is not positive (a capture that could not be opened
    reports 0). *)
Theorem get_video_info_returns (U : Unicode) (cv : OpenCV) (path : str) :
  exists info,
    get_video_info U cv (VStr path) = Return info
    /\ aspect_ratio info
       = if (0 <? width info)%Z
         then PrimFloat.div (float_of_int (height info))
                (float_of_int (width info))
         else np_nan.
Proof.
  assert (Hk : forall n h w f,
             exists info,
               video_info_of n h w f = Return info
               /\ height info = h /\ width info = w
               /\ aspect_ratio info
                  = if (0 <? w)%Z
                    then PrimFloat.div (float_of_int h) (float_of_int w)
                    else np_nan).
  { intros n h w f. unfold video_info_of, truediv.
    destruct (0 <? w)%Z eqn:Hw.
    - apply Z.ltb_lt in Hw.
      destruct (w =? 0)%Z eqn:Hz; [apply Z.eqb_eq in Hz; lia|].
      cbn [bind]. eexists. repeat split.
    - cbn [bind]. eexists. repeat split. }
  cbn [get_video_info]. unfold get_video_info_str.
  destruct (is_image_ext (str_lower U (snd (splitext path)))).
  - destruct (imread cv path) as [[h w]|].
    + destruct (Hk 1%Z h w np_nan) as [info [-> [Hh [Hw Ha]]]].
      exists info. rewrite Hh, Hw. auto.
    + eexists. split; reflexivity.
  - destruct (video_props cv path) as [[[n h] w] f].
    destruct (Hk n h w f) as [info [-> [Hh [Hw Ha]]]].
    exists info. rewrite Hh, Hw. auto.
Qed.

(** ** Column processing *)

Lemma nth_replace_nth_other {A} (i j : nat) (x d : A) (l : list A) :
  j <> i -> nth j (replace_nth i x l) d = nth j l d.
Proof.
  revert i j. induction l as [|y l IH]; intros i j H; simpl.
  - destruct i; reflexivity.
  - destruct i as [|i], j as [|j]; simpl; try reflexivity; try lia.
    apply IH. lia.
Qed.

(** Assigning an existing column one value per row. *)
Lemma setitem_existing (data : DataFrame) (name : str) (vals : list value)
  (i : nat) :
  column_index name (columns data) = Some i ->
  length vals = length (rows data) ->
  columns (setitem data name vals) = columns data
  /\ Forall2 (fun r r' => label r' = label r
                          /\ forall j, j <> i -> cell_at j r' = cell_at j r)
       (rows data) (rows (setitem data name vals)).
Proof.
  intros Hi Hlen. unfold setitem. rewrite Hi. cbn [columns rows].
  split; [reflexivity|]. revert vals Hlen. generalize (rows data).
  induction l as [|r rs IH]; intros [|v vals] Hlen; simpl in *;
    try discriminate; constructor.
  - split; [reflexivity|]. intros j Hj. unfold cell_at. cbn [cells].
    now apply nth_replace_nth_other.
  - apply IH. lia.
Qed.

(** Assigning any column one value per row keeps the labels and the
    columns there were, and the column is there afterwards. *)
Lemma setitem_labels (data : DataFrame) (name : str) (vals : list value) :
  length vals = length (rows data) ->
  map label (rows (setitem data name vals)) = map label (rows data)
  /\ has_column (setitem data name vals) name = true
  /\ forall c, has_column data c = true ->
               has_column (setitem data name vals) c = true.
Proof.
  intros Hlen. unfold setitem.
  destruct (column_index name (columns data)) as [i|] eqn:Hi;
    cbn [columns rows]; (split; [|split]).
  - rewrite map_map. cbn [label]. revert vals Hlen. generalize (rows data).
    induction l as [|r rs IH]; intros [|v vals] Hlen; simpl in *;
      try discriminate; [reflexivity|]. f_equal. apply IH. lia.
  - apply (column_index_has data name i Hi).
  - auto.
  - rewrite map_map. cbn [label]. revert vals Hlen. generalize (rows data).
    induction l as [|r rs IH]; intros [|v vals] Hlen; simpl in *;
      try discriminate; [reflexivity|]. f_equal. apply IH. lia.
  - unfold has_column. cbn [columns]. rewrite existsb_app. simpl.
    destruct (list_eq_dec N.eq_dec name name) as [_|Hn]; [|contradiction].
    unfold str_eqb. destruct (list_eq_dec N.eq_dec name name);
      [apply orb_true_r | contradiction].
  - intros c Hc. unfold has_column in *. cbn [columns].
    rewrite existsb_app, Hc. reflexivity.
Qed.

(** A processing stage made of one column read, one [apply] and one
    assignment rewrites that column only. *)
Ltac rewrites_column :=
  let data := fresh "data" in
  let data' := fresh "data'" in
  let H := fresh "H" in
  intros data data' H;
  unfold process_relpath, process_abspath, process_caption_prefix,
    process_unescape, apply in H;
  returned H; injection H as <-;
  match goal with
  | E : getitem _ _ = Return _, M : mapM _ _ = Return _ |- _ =>
      apply getitem_returned in E as [? [? ->]];
      apply mapM_length in M; rewrite length_map in M;
      split; [|eexists; split; [eassumption|]];
      eapply setitem_existing; eassumption
  end.

(** X8. The four stages that rewrite a column ([--relpath], [--abspath],
    [--remove-caption-prefix], [--unescape]) change nothing else: the
    table they return has the same columns and the same rows with the same
    labels, and the cells of every other column are as they were. *)
Theorem processing_rewrites_one_column (P : Platform) :
  (forall base, rewrites_only col_path (process_relpath P base))
  /\ (forall base, rewrites_only col_path (process_abspath base))
  /\ rewrites_only col_text (process_caption_prefix P)
  /\ rewrites_only col_text (process_unescape P).
Proof.
  split; [intros base; rewrites_column|].
  split; [intros base; rewrites_column|].
  split; rewrites_column.
Qed.

(** [--unescape] on the three-row table: the aesthetic scores stay. *)
Lemma processing_rewrites_one_column_witness :
  exists data',
    process_unescape demo in_csv = Return data'
    /\ columns data' = columns in_csv
    /\ map (cell_at 2) (rows data') = [VInt 2; VInt 9; VInt 5].
Proof.
  eexists. split; [reflexivity|]. split.
  - exact (proj1 (proj2 (proj2 (proj2 (processing_rewrites_one_column demo)))
                    in_csv _ eq_refl)).
  - reflexivity.
Defined.

(** X9. [--info] needs one row at least: on a table with no row the probe
    results cannot be unpacked and the stage raises [ValueError]. On a
    table it returns for, the rows keep their labels and the five derived
    columns are present. *)
Theorem process_info_rows (P : Platform) :
  (forall data i,
      column_index col_path (columns data) = Some i ->
      rows data = [] ->
      process_info P data = Raise ValueError)
  /\ (forall data data',
         process_info P data = Return data' ->
         rows data <> []
         /\ map label (rows data') = map label (rows data)
         /\ forallb (has_column data') info_columns = true).
Proof.
  split.
  - intros data i Hi Hrows. unfold process_info.
    rewrite (getitem_index data col_path i Hi), Hrows. reflexivity.
  - intros data data' H. unfold process_info, apply in H.
    destruct (getitem data col_path) as [paths|] eqn:E; [|discriminate].
    cbn [bind] in H.
    destruct (mapM (get_video_info (ucd P) (cv2 P)) paths) as [probed|] eqn:E0;
      [|discriminate].
    cbn [bind] in H.
    apply getitem_returned in E as [i [Hi ->]].
    pose proof (mapM_length _ _ _ E0) as Hlen. rewrite length_map in Hlen.
    destruct probed as [|x info]; [discriminate|].
    split; [destruct (rows data); [discriminate | congruence]|].
    apply Return_inj in H. subst data'. cbv zeta.
    set (vals := x :: info) in *.
    set (d1 := setitem data col_num_frames
                 (map (fun i => VInt (num_frames i)) vals)).
    set (d2 := setitem d1 (py_str "height")
                 (map (fun i => VInt (height i)) vals)).
    set (d3 := setitem d2 (py_str "width")
                 (map (fun i => VInt (width i)) vals)).
    set (d4 := setitem d3 (py_str "aspect_ratio")
                 (map (fun i => VFloat (aspect_ratio i)) vals)).
    destruct (setitem_labels data col_num_frames
                (map (fun i => VInt (num_frames i)) vals))
      as [L1 [C1 K1]]; [now rewrite length_map|].
    fold d1 in L1, C1, K1.
    assert (N1 : length (rows d1) = length (rows data))
      by (rewrite <- (length_map label), L1; apply length_map).
    destruct (setitem_labels d1 (py_str "height")
                (map (fun i => VInt (height i)) vals))
      as [L2 [C2 K2]]; [rewrite length_map; lia|].
    fold d2 in L2, C2, K2.
    assert (N2 : length (rows d2) = length (rows data))
      by (rewrite <- (length_map label), L2, length_map; exact N1).
    destruct (setitem_labels d2 (py_str "width")
                (map (fun i => VInt (width i)) vals))
      as [L3 [C3 K3]]; [rewrite length_map; lia|].
    fold d3 in L3, C3, K3.
    assert (N3 : length (rows d3) = length (rows data))
      by (rewrite <- (length_map label), L3, length_map; exact N2).
    destruct (setitem_labels d3 (py_str "aspect_ratio")
                (map (fun i => VFloat (aspect_ratio i)) vals))
      as [L4 [C4 K4]]; [rewrite length_map; lia|].
    fold d4 in L4, C4, K4.
    assert (N4 : length (rows d4) = length (rows data))
      by (rewrite <- (length_map label), L4, length_map; exact N3).
    destruct (setitem_labels d4 (py_str "fps")
                (map (fun i => VFloat (fps i)) vals))
      as [L5 [C5 K5]]; [rewrite length_map; lia|].
    split; [congruence|].
    unfold info_columns. cbn [forallb].
    rewrite C5, (K5 _ C4), (K5 _ (K4 _ C3)), (K5 _ (K4 _ (K3 _ C2))),
      (K5 _ (K4 _ (K3 _ (K2 _ C1)))).
    reflexivity.
Qed.

(** [--info] after [--ext] when no file exists: the table is empty. *)
Lemma process_info_rows_witness :
  process_info demo {| columns := [col_path; col_text]; rows := [] |}
  = Raise ValueError
  /\ exists data',
       process_info demo in_csv = Return data'
       /\ map label (rows data') = [0; 1; 2]
       /\ forallb (has_column data') info_columns = true.
Proof.
  split.
  - exact (proj1 (process_info_rows demo)
             {| columns := [col_path; col_text]; rows := [] |} 0
             eq_refl eq_refl).
  - eexists. split; [reflexivity|].
    exact (proj2 (proj2 (process_info_rows demo) in_csv _ eq_refl)).
Defined.

(** When some element makes [f] raise, the loop raises, with an exception
    [f] can raise. *)
Lemma mapM_raises {A B} (Q : exn -> Prop) (f : A -> result B) (xs : list A) :
  (forall x e, f x = Raise e -> Q e) ->
  (exists x e, In x xs /\ f x = Raise e) ->
  exists e, mapM f xs = Raise e /\ Q e.
Proof.
  intros HQ. induction xs as [|x xs IH]; intros [y [e [Hy Hf]]];
    [destruct Hy|].
  simpl. destruct (f x) as [b|e'] eqn:Hx; cbn [bind].
  - destruct IH as [e' [He' Hq]].
    + destruct Hy as [<-|Hy]; [congruence | now exists y, e].
    + rewrite He'. now exists e'.
  - exists e'. split; [reflexivity | now apply (HQ x)].
Qed.

(** The only exception of the replacement function is the [ValueError] of
    [int]. *)
Lemma replace_charref_raises (T : HtmlTables) (g : str) (e : exn) :
  replace_charref T g = Raise e -> e = ValueError.
Proof.
  unfold replace_charref. destruct g as [|c tl]; [discriminate|].
  destruct (c =? 35)%N.
  - assert (Hk : forall num,
               match invalid_charrefs T num with
               | Some r => Return r
               | None =>
                   if ((55296 <=? num) && (num <=? 57343)
                       || (1114111 <? num))%N
                   then Return [65533%N]
                   else if invalid_codepoints T num then Return []
                        else Return [num]
               end = Raise e -> e = ValueError).
    { intros num. destruct (invalid_charrefs T num); [discriminate|].
      destruct ((55296 <=? num) && (num <=? 57343) || (1114111 <? num))%N;
        [discriminate|].
      destruct (invalid_codepoints T num); discriminate. }
    destruct tl as [|x tl']; cbn [bind]; [apply Hk|].
    destruct ((x =? 120) || (x =? 88))%N.
    + unfold int_hexadecimal. cbn [bind]. apply Hk.
    + unfold int_decimal.
      destruct (int_max_str_digits <? length (rstrip_semicolon (x :: tl')))%nat;
        cbn [bind]; [congruence | apply Hk].
  - destruct (html5 T (c :: tl)); [discriminate|].
    destruct (longest_entity T (length (c :: tl) - 1) (c :: tl)); discriminate.
Qed.

Lemma charref_sub_raises (T : HtmlTables) (s : str) (skip : nat) (e : exn) :
  charref_sub T skip s = Raise e -> e = ValueError.
Proof.
  revert skip. induction s as [|c s IH]; intros skip H; [discriminate|].
  cbn [charref_sub] in H. destruct skip as [|k]; [|exact (IH k H)].
  assert (Hrest : forall k (h : char),
             (rest <- charref_sub T k s ;; Return (h :: rest)) = Raise e ->
             e = ValueError).
  { intros k h Hk. destruct (charref_sub T k s) eqn:E; [discriminate|].
    cbn [bind] in Hk. injection Hk as <-. exact (IH k E). }
  destruct (c =? 38)%N; [|exact (Hrest 0 c H)].
  destruct (charref_group s) as [g|]; [|exact (Hrest 0 c H)].
  destruct (replace_charref T g) as [r|e'] eqn:Hr; cbn [bind] in H.
  - destruct (charref_sub T (length g) s) eqn:E; [discriminate|].
    cbn [bind] in H. injection H as <-. exact (IH _ E).
  - injection H as <-. exact (replace_charref_raises T g e' Hr).
Qed.

(** [html.unescape] raises [TypeError] on a value that is no string and
    [ValueError] on a string [int] refuses a reference of; nothing else. *)
Lemma html_unescape_raises (T : HtmlTables) (v : value) (e : exn) :
  html_unescape T v = Raise e -> e = TypeError \/ e = ValueError.
Proof.
  destruct v as [s| | | |]; cbn [html_unescape]; intros H;
    try (left; congruence).
  right. unfold unescape in H.
  destruct (negb (contains_char 38%N s)); [discriminate|].
  destruct (charref_sub T 0 s) eqn:E; [discriminate|].
  cbn [bind] in H. injection H as <-. exact (charref_sub_raises T s 0 _ E).
Qed.

(** What [--remove-caption-prefix] leaves in the text column. *)
Lemma process_caption_prefix_column (P : Platform) (data data' : DataFrame)
  (text : list value) :
  well_formed data = true ->
  getitem data col_text = Return text ->
  process_caption_prefix P data = Return data' ->
  exists new,
    mapM (remove_caption_prefix (ucd P)) text = Return new
    /\ getitem data' col_text = Return new.
Proof.
  intros Hwf Htext Hrun. pose proof Htext as Hcol.
  apply getitem_returned in Hcol as [k [Hk Hcol]].
  unfold process_caption_prefix, apply in Hrun.
  rewrite (column_index_has data col_text k Hk), Htext in Hrun.
  cbn [py_assert bind] in Hrun.
  destruct (mapM (remove_caption_prefix (ucd P)) text) as [new|] eqn:E;
    [|discriminate].
  cbn [bind] in Hrun. injection Hrun as <-.
  exists new. split; [reflexivity|].
  apply (getitem_setitem data col_text new k); auto.
  rewrite (mapM_length _ _ _ E), Hcol. apply length_map.
Qed.

(** X10. [--remove-caption-prefix] and [--unescape] together stop the run
    as soon as one caption starts with no known prefix: prefix removal
    leaves [None] in that row, on which [html.unescape] raises
    [TypeError]. (The run stops with [ValueError] instead when a caption
    before that row holds a decimal reference [int] refuses.) *)
Theorem caption_prefix_then_unescape_raises (P : Platform)
  (data data' : DataFrame) (text : list value) (i : nat) (s : str) :
  well_formed data = true ->
  getitem data col_text = Return text ->
  nth_error text i = Some (VStr s) ->
  no_prefix LLAVA_PREFIX s = true ->
  process_caption_prefix P data = Return data' ->
  exists e,
    process_unescape P data' = Raise e
    /\ (e = TypeError \/ e = ValueError).
Proof.
  intros Hwf Htext Hi Hs Hrun.
  destruct (process_caption_prefix_column P data data' text Hwf Htext Hrun)
    as [new [Hnew Hget]].
  destruct (mapM_nth_error _ _ _ Hnew) as [_ Hnth].
  destruct (Hnth i _ Hi) as [y [Hy Hf]].
  rewrite (remove_caption_prefix_no_match (ucd P) s Hs) in Hf.
  injection Hf as <-.
  unfold process_unescape, apply.
  pose proof Hget as Hcol. apply getitem_returned in Hcol as [k [Hk _]].
  rewrite (column_index_has data' col_text k Hk), Hget. cbn [py_assert bind].
  destruct (mapM_raises (fun e => e = TypeError \/ e = ValueError)
              (html_unescape (entities P)) new) as [e [He Hq]].
  - apply html_unescape_raises.
  - exists VNone, TypeError.
    split; [now apply nth_error_In in Hy | reflexivity].
  - exists e. rewrite He. now split.
Qed.

(** The three-row table: its second caption starts with no prefix. *)
Lemma caption_prefix_then_unescape_raises_witness :
  exists data' e,
    process_caption_prefix demo in_csv = Return data'
    /\ process_unescape demo data' = Raise e
    /\ (e = TypeError \/ e = ValueError).
Proof.
  destruct (caption_prefix_then_unescape_raises demo in_csv _ _ 1
              (py_str "A dog runs.") eq_refl eq_refl eq_refl eq_refl eq_refl)
    as [e [He Hq]].
  eexists. exists e. split; [reflexivity|]. now split.
Defined.

(** ** Output path, sort flags and shards *)

Lemma replace_absent (old new s : str) :
  has_substring old s = false -> str_replace s old new = s.
Proof.
  unfold str_replace. induction s as [|c s IH]; [reflexivity|].
  cbn [has_substring replace_from]. intros H.
  apply orb_false_iff in H as [Hsw Hs]. rewrite Hsw. f_equal. now apply IH.
Qed.

(** X11. When the output path holds no [".csv"] (an [--output] with
    another extension), the replacement that should give every shard its
    own file name changes nothing: all the shards are written to the same
    path, one over the other. *)
Theorem shards_share_path (data : DataFrame) (N : Z) (output_path : str) :
  has_substring (py_str ".csv") output_path = false ->
  (0 < N)%Z ->
  exists files,
    write_output (Some N) output_path data = Return files
    /\ length files = Z.to_nat N
    /\ forall f, In f files -> fst f = output_path.
Proof.
  intros Hsub HN. unfold write_output.
  rewrite (array_split_split_sizes (rows data) N HN). cbn [bind].
  eexists. split; [reflexivity|]. split.
  - rewrite length_map, length_combine, length_seq, split_sizes_length,
      section_sizes_length by lia.
    apply Nat.min_id.
  - intros f Hf. apply in_map_iff in Hf as [ix [<- _]]. cbn [fst].
    unfold shard_path. now apply replace_absent.
Qed.

(** [--output out.tsv --shard 2] on the three-row table. *)
Lemma shards_share_path_witness :
  exists files,
    write_output (Some 2%Z) (py_str "out.tsv") in_csv = Return files
    /\ length files = Z.to_nat 2
    /\ forall f, In f files -> fst f = py_str "out.tsv".
Proof.
  apply (shards_share_path in_csv 2 (py_str "out.tsv")); reflexivity.
Defined.

Lemma get_output_path_conflict (repr : float -> str) (args : Args.t)
  (input_name d a : str) :
  Args.output args = None ->
  Args.sort_descending args = Some d ->
  Args.sort_ascending args = Some a ->
  exists e, get_output_path repr args input_name = Raise e.
Proof.
  intros Ho Hd Ha. unfold get_output_path. rewrite Ho, Hd, Ha.
  destruct (Args.input args); eexists; reflexivity.
Qed.

(** X12. Without [--output], a command line that gives both sort flags
    never writes a file, whatever the platform, the input and the other
    options are: the run ends with an exception (the failed assertion of
    [get_output_path], unless loading the input failed before). *)
Theorem sort_conflict_never_writes (P : Platform) (args : Args.t) (d a : str) :
  Args.output args = None ->
  Args.sort_descending args = Some d ->
  Args.sort_ascending args = Some a ->
  exists e, main P args = Raise e.
Proof.
  intros Ho Hd Ha. unfold main.
  destruct (mapM (read_csv P) (flat_map (glob P) (Args.input args)))
    as [frames|]; cbn [bind]; [|eexists; reflexivity].
  destruct (pd_concat frames) as [data|]; cbn [bind];
    [|eexists; reflexivity].
  match goal with
  | |- exists e, bind ?m _ = _ =>
      destruct m as [data1|]; cbn [bind]; [|eexists; reflexivity]
  end.
  match goal with
  | |- exists e, bind ?m _ = _ =>
      destruct m as [data2|]; cbn [bind]; [|eexists; reflexivity]
  end.
  match goal with
  | |- exists e, bind (get_output_path ?r ?g ?n) _ = _ =>
      destruct (get_output_path_conflict r g n d a Ho Hd Ha) as [e ->]
  end.
  exists e. reflexivity.
Qed.

(** The two sort flags on the small platform. *)
Lemma sort_conflict_never_writes_witness :
  exists e, main demo sort_both = Raise e.
Proof.
  exact (sort_conflict_never_writes demo sort_both col_aes col_aes
           eq_refl eq_refl eq_refl).
Defined.

(** ** [os.path] on a path [dir/name.csv] *)

Lemma rfind_from_absent (c : char) (s : str) (i : Z) :
  contains_char c s = false -> rfind_from c s i = (-1)%Z.
Proof.
  unfold contains_char. revert i.
  induction s as [|x s IH]; intros i H; [reflexivity|].
  cbn [existsb rfind_from] in *. apply orb_false_iff in H as [Hx Hs].
  rewrite (IH _ Hs). rewrite N.eqb_sym, Hx. reflexivity.
Qed.

Lemma rfind_from_last (c : char) (a b : str) (i : Z) :
  (0 <= i)%Z ->
  contains_char c b = false ->
  rfind_from c (a ++ c :: b) i = (i + Z.of_nat (length a))%Z.
Proof.
  intros Hi Hb. revert i Hi.
  induction a as [|x a IH]; intros i Hi; cbn [app rfind_from length].
  - rewrite (rfind_from_absent c b _ Hb), N.eqb_refl. simpl. lia.
  - rewrite IH by lia.
    destruct (0 <=? i + 1 + Z.of_nat (length a))%Z eqn:Hle; [lia|].
    apply Z.leb_gt in Hle. lia.
Qed.

Lemma rstrip_sep_keeps (l : str) (x : char) :
  (x =? sep)%N = false -> rstrip_sep (l ++ [x]) = l ++ [x].
Proof.
  intros Hx. induction l as [|y l IH]; cbn [app rstrip_sep].
  - now rewrite Hx.
  - rewrite IH. destruct (l ++ [x]) eqn:E; [|reflexivity].
    now destruct l.
Qed.

Lemma rstrip_sep_drops (l : str) :
  rstrip_sep (l ++ [sep]) = rstrip_sep l.
Proof.
  induction l as [|y l IH]; cbn [app rstrip_sep]; [reflexivity|].
  now rewrite IH.
Qed.

Lemma take_while_stops (p : char -> bool) (a b : str) (c : char) :
  forallb p a = true -> p c = false -> take_while p (a ++ c :: b) = a.
Proof.
  intros Ha Hc. induction a as [|x a IH]; cbn [app take_while].
  - now rewrite Hc.
  - cbn [forallb] in Ha. apply andb_true_iff in Ha as [Hx Ha].
    now rewrite Hx, IH.
Qed.

Lemma contains_char_forallb (c : char) (s : str) :
  contains_char c s = false ->
  forallb (fun x => negb (x =? c)%N) s = true.
Proof.
  unfold contains_char. induction s as [|x s IH]; [reflexivity|].
  cbn [existsb forallb]. intros H. apply orb_false_iff in H as [Hx Hs].
  now rewrite N.eqb_sym, Hx, IH.
Qed.

(** The parts of a path [d ++ x :: "/" ++ name ++ ".csv"] whose directory
    does not end in a slash and whose file name holds no slash and no
    other dot. *)
Lemma path_parts (d name : str) (x : char) :
  (x =? sep)%N = false ->
  contains_char sep name = false ->
  contains_char extsep name = false ->
  dirname (d ++ x :: sep :: name ++ py_str ".csv") = d ++ [x]
  /\ stem (basename (d ++ x :: sep :: name ++ py_str ".csv")) = name
  /\ path_join (d ++ [x]) (name ++ py_str ".csv")
     = d ++ x :: sep :: name ++ py_str ".csv".
Proof.
  intros Hx Hsep Hdot.
  assert (Hrf : rfind sep (d ++ x :: sep :: name ++ py_str ".csv")
                = Z.of_nat (length (d ++ [x]))).
  { unfold rfind.
    replace (d ++ x :: sep :: name ++ py_str ".csv")
      with ((d ++ [x]) ++ sep :: name ++ py_str ".csv")
      by (rewrite <- app_assoc; reflexivity).
    assert (Hc : contains_char sep (name ++ py_str ".csv") = false)
      by (unfold contains_char in *; rewrite existsb_app;
          apply orb_false_iff; split; [exact Hsep | reflexivity]).
    rewrite (rfind_from_last sep (d ++ [x]) _ 0 ltac:(lia) Hc). lia. }
  assert (Hsplit : d ++ x :: sep :: name ++ py_str ".csv"
                   = (d ++ [x; sep]) ++ name ++ py_str ".csv")
    by (rewrite <- app_assoc; reflexivity).
  assert (Hn : Z.to_nat (Z.of_nat (length (d ++ [x])) + 1)
               = length (d ++ [x; sep]))
    by (rewrite !length_app; simpl; lia).
  split; [|split].
  - unfold dirname. rewrite Hrf, Hn, Hsplit, firstn_app, firstn_all,
      Nat.sub_diag. simpl firstn. rewrite app_nil_r.
    replace (d ++ [x; sep]) with ((d ++ [x]) ++ [sep])
      by (rewrite <- app_assoc; reflexivity).
    rewrite forallb_app, forallb_app. cbn [forallb].
    rewrite (N.eqb_sym sep x), Hx, andb_false_r. simpl andb.
    rewrite rstrip_sep_drops. now apply rstrip_sep_keeps.
  - unfold basename, stem. rewrite Hrf, Hn, Hsplit, skipn_app, skipn_all,
      Nat.sub_diag. simpl skipn. simpl app at 1.
    apply (take_while_stops _ name (py_str "csv") extsep);
      [now apply contains_char_forallb | reflexivity].
  - unfold path_join.
    assert (Hb : startswith (name ++ py_str ".csv") [sep] = false).
    { destruct name as [|c name]; [reflexivity|].
      unfold contains_char in Hsep. cbn [existsb] in Hsep.
      apply orb_false_iff in Hsep as [Hc _]. simpl.
      now rewrite N.eqb_sym, Hc. }
    rewrite Hb.
    assert (Ha : endswith (d ++ [x]) [sep] = false).
    { unfold endswith. rewrite rev_app_distr. simpl. now rewrite Hx. }
    rewrite Ha. destruct (d ++ [x]) eqn:E; [now destruct d|].
    rewrite <- E, <- app_assoc. reflexivity.
Qed.

(** X13. A run with no option writes onto its input: for one input file
    [dir/name.csv] (no slash at the end of [dir], no slash and no dot in
    [name]) that the pattern matches as itself, the output path made of
    the input name and no suffix is the input path again, and the file
    written there is the loaded table. *)
Theorem no_option_overwrites_input (P : Platform) (d name : str) (x : char)
  (data : DataFrame) :
  (x =? sep)%N = false ->
  contains_char sep name = false ->
  contains_char extsep name = false ->
  glob P (d ++ x :: sep :: name ++ py_str ".csv")
  = [d ++ x :: sep :: name ++ py_str ".csv"] ->
  read_csv P (d ++ x :: sep :: name ++ py_str ".csv") = Return data ->
  exists data',
    pd_concat [data] = Return data'
    /\ main P (cli (d ++ x :: sep :: name ++ py_str ".csv")
                 None None None false false false)
       = Return [(d ++ x :: sep :: name ++ py_str ".csv", data')].
Proof.
  intros Hx Hsep Hdot Hglob Hread.
  destruct (path_parts d name x Hx Hsep Hdot) as [Hdir [Hstem Hjoin]].
  eexists. split; [reflexivity|].
  unfold main. cbn [cli Args.input flat_map]. rewrite Hglob.
  cbn [app mapM]. rewrite Hread. cbn [bind map str_join].
  unfold pd_concat. cbn [bind].
  cbn [cli Args.difference Args.intersection when_given suffix_opt bind].
  unfold get_output_path.
  cbn [cli Args.output Args.input Args.relpath Args.abspath Args.ext
         Args.remove_empty_caption Args.lang Args.remove_url
         Args.remove_caption_prefix Args.unescape Args.info Args.fmin
         Args.fmax Args.aesmin Args.matchmin Args.sort_descending
         Args.sort_ascending Args.shard suffix_opt suffix_if bind
         when_flag when_given write_output].
  rewrite Hdir, Hstem, Hjoin. reflexivity.
Qed.

(** The three-row table, read from and written to [data/in.csv]. *)
Lemma no_option_overwrites_input_witness :
  exists data',
    pd_concat [in_csv] = Return data'
    /\ main demo no_option = Return [(py_str "data/in.csv", data')].
Proof.
  exact (no_option_overwrites_input demo (py_str "dat") (py_str "in") 97%N
           in_csv eq_refl eq_refl eq_refl eq_refl eq_refl).
Defined.

(** ** Caption normalizer *)

Lemma lstrip_head (U : Unicode) (s : str) (c : char) (tl : str) :
  lstrip U s = c :: tl -> isspace U c = false.
Proof.
  induction s as [|x s IH]; simpl; [discriminate|].
  destruct (isspace U x) eqn:Hx; [exact IH|].
  intros H. injection H as <- _. exact Hx.
Qed.

Lemma rstrip_head (U : Unicode) (s : str) (c : char) (tl : str) :
  rstrip U s = c :: tl -> exists tl', s = c :: tl'.
Proof.
  destruct s as [|x s]; simpl; [discriminate|].
  destruct (rstrip U s); [destruct (isspace U x); [discriminate|]|];
    intros H; injection H as <- _; now exists s.
Qed.

Lemma last_default {A} (l : list A) (a d d' : A) :
  last (a :: l) d = last (a :: l) d'.
Proof.
  revert a. induction l as [|b l IH]; intros a; [reflexivity|].
  cbn [last]. apply IH.
Qed.

Lemma rstrip_last (U : Unicode) (s : str) (c : char) (tl : str) :
  rstrip U s = c :: tl -> isspace U (last (c :: tl) c) = false.
Proof.
  revert c tl. induction s as [|x s IH]; intros c tl; simpl; [discriminate|].
  destruct (rstrip U s) as [|y r] eqn:Hr.
  - destruct (isspace U x) eqn:Hx; [discriminate|].
    intros H. injection H as <- <-. exact Hx.
  - intros H. injection H as <- <-. specialize (IH y r eq_refl).
    change (last (x :: y :: r) x) with (last (y :: r) x).
    now rewrite (last_default r y x y).
Qed.

(** X14. On a caption that starts with a known prefix and has more than
    white space after it, the transform returns the text after the first
    matching prefix in list order, trimmed at both ends (its first and its
    last character are no white space), with the first character in upper
    case when it was a lower-case one. *)
Theorem remove_caption_prefix_returns (U : Unicode) (s p : str) (c : char)
  (tl : str) :
  first_prefix LLAVA_PREFIX s = Some p ->
  strip U (skipn (length p) s) = c :: tl ->
  remove_caption_prefix U (VStr s) = Return (VStr (capitalize U (c :: tl)))
  /\ s = p ++ skipn (length p) s
  /\ isspace U c = false
  /\ isspace U (last (c :: tl) c) = false.
Proof.
  intros Hp Hs. split; [|split; [|split]].
  - now rewrite remove_caption_prefix_cases, Hp, Hs.
  - apply find_some in Hp as [_ Hp]. now apply startswith_split.
  - unfold strip in Hs. destruct (rstrip_head U _ c tl Hs) as [tl' Hl].
    now apply lstrip_head in Hl.
  - unfold strip in Hs. now apply rstrip_last in Hs.
Qed.

(** The scenario caption. *)
Lemma remove_caption_prefix_returns_witness :
  remove_caption_prefix basic_latin (VStr (py_str "The video shows a cat."))
  = Return (VStr (capitalize basic_latin (py_str "a cat.")))
  /\ py_str "The video shows a cat."
     = py_str "The video shows"
         ++ skipn (length (py_str "The video shows"))
              (py_str "The video shows a cat.")
  /\ isspace basic_latin 97%N = false
  /\ isspace basic_latin (last (py_str "a cat.") 97%N) = false.
Proof.
  exact (remove_caption_prefix_returns basic_latin
           (py_str "The video shows a cat.") (py_str "The video shows")
           97%N (py_str " cat.") eq_refl eq_refl).
Defined.

Lemma mapM_some_raise {A B} (f : A -> result B) (xs : list A) :
  (exists x e, In x xs /\ f x = Raise e) -> exists e, mapM f xs = Raise e.
Proof.
  induction xs as [|x xs IH]; intros [y [e [Hy Hf]]]; [destruct Hy|].
  simpl. destruct (f x) as [b|e'] eqn:Hx; cbn [bind].
  - destruct IH as [e' He'].
    + destruct Hy as [<-|Hy]; [congruence | now exists y, e].
    + rewrite He'. now exists e'.
  - now exists e'.
Qed.

(** X15. The transform returns on strings only, so
    [--remove-caption-prefix] stops the run when a caption is missing (a
    float, after the breakpoint) or is any other value that is no string:
    the stage raises and no table comes out of it. *)
Theorem caption_prefix_needs_strings (P : Platform) (data : DataFrame)
  (text : list value) (v : value) :
  getitem data col_text = Return text ->
  In v text ->
  (forall s, v <> VStr s) ->
  exists e, process_caption_prefix P data = Raise e.
Proof.
  intros Htext Hv Hns. unfold process_caption_prefix, apply.
  pose proof Htext as Hcol. apply getitem_returned in Hcol as [k [Hk _]].
  rewrite (column_index_has data col_text k Hk), Htext. cbn [py_assert bind].
  destruct (mapM_some_raise (remove_caption_prefix (ucd P)) text)
    as [e He].
  - destruct v as [s| | | |].
    + now destruct (Hns s).
    + exists (VInt z), AttributeError. split; [assumption | reflexivity].
    + exists (VFloat f), BreakpointHit. split; [assumption | reflexivity].
    + exists (VBool b), AttributeError. split; [assumption | reflexivity].
    + exists VNone, AttributeError. split; [assumption | reflexivity].
  - rewrite He. now exists e.
Qed.

(** The table of the scenario: its first caption is missing. *)
Lemma caption_prefix_needs_strings_witness :
  exists e, process_caption_prefix demo scenario_csv = Raise e.
Proof.
  apply (caption_prefix_needs_strings demo scenario_csv _ (VFloat np_nan)
           eq_refl).
  - left. reflexivity.
  - intros s H. discriminate H.
Defined.

(** ** Preconditions of the stages *)

Lemma column_index_none (data : DataFrame) (name : str) :
  has_column data name = false -> column_index name (columns data) = None.
Proof.
  intros H. destruct (column_index name (columns data)) as [i|] eqn:Hi;
    [|reflexivity].
  rewrite (column_index_has data name i Hi) in H. discriminate.
Qed.

(** X16. A stage stops the run when the column it reads is absent. The
    filters and the two caption transforms check the column first and fail
    their assertion; [--relpath], [--abspath] and [--info] have no such
    check and fail with [KeyError] when they read the column. *)
Theorem missing_column_stops (P : Platform) (data : DataFrame) :
  (has_column data col_path = false ->
   filter_ext P data = Raise AssertionError
   /\ (forall base, process_relpath P base data = Raise KeyError)
   /\ (forall base, process_abspath base data = Raise KeyError)
   /\ process_info P data = Raise KeyError)
  /\ (has_column data col_text = false ->
      filter_empty_caption data = Raise AssertionError
      /\ filter_url P data = Raise AssertionError
      /\ (forall detect, filter_lang detect data = Raise AssertionError)
      /\ process_caption_prefix P data = Raise AssertionError
      /\ process_unescape P data = Raise AssertionError)
  /\ (forall name test,
         has_column data name = false ->
         filter_threshold name test data = Raise AssertionError).
Proof.
  split; [|split].
  - intros H. pose proof (column_index_none data col_path H) as Hi.
    unfold filter_ext, process_relpath, process_abspath, process_info, getitem.
    rewrite H, Hi. repeat split.
  - intros H.
    unfold filter_empty_caption, filter_url, filter_lang,
      process_caption_prefix, process_unescape.
    rewrite H. repeat split.
  - intros name test H. unfold filter_threshold. now rewrite H.
Qed.

(** The reference table has no text column and no score column. *)
Lemma missing_column_stops_witness :
  process_unescape demo ref_csv = Raise AssertionError
  /\ filter_threshold col_aes (ge_float 0.5%float) ref_csv
     = Raise AssertionError.
Proof.
  split.
  - apply (proj1 (proj2 (missing_column_stops demo ref_csv))). reflexivity.
  - apply (proj2 (proj2 (missing_column_stops demo ref_csv))). reflexivity.
Defined.

(** X17. [--lang] with a code other than ["en"] never writes a file: when
    the input is loaded and the output path is made, building the
    detector fails its assertion, before any filter runs. *)
Theorem unsupported_lang_never_writes (P : Platform) (args : Args.t)
  (l : str) :
  Args.lang args = Some l ->
  str_eqb l (py_str "en") = false ->
  exists e, main P args = Raise e.
Proof.
  intros Hl Hen. unfold main.
  destruct (mapM (read_csv P) (flat_map (glob P) (Args.input args)))
    as [frames|]; cbn [bind]; [|eexists; reflexivity].
  destruct (pd_concat frames) as [data|]; cbn [bind];
    [|eexists; reflexivity].
  do 3 match goal with
       | |- exists e, bind ?m _ = _ =>
           destruct m; cbn [bind]; [|eexists; reflexivity]
       end.
  rewrite Hl. unfold build_lang_detector. rewrite Hen.
  eexists. reflexivity.
Qed.

(** [--lang fr] on the small platform. *)
Lemma unsupported_lang_never_writes_witness :
  exists e,
    main demo
      {| Args.input := [py_str "data/in.csv"];
         Args.output := None;
         Args.disable_parallel := false;
         Args.shard := None;
         Args.sort_descending := None;
         Args.sort_ascending := None;
         Args.difference := None;
         Args.intersection := None;
         Args.relpath := None;
         Args.abspath := None;
         Args.ext := false;
         Args.remove_empty_caption := false;
         Args.lang := Some (py_str "fr");
         Args.remove_url := false;
         Args.remove_caption_prefix := false;
         Args.unescape := false;
         Args.info := false;
         Args.fmin := None;
         Args.fmax := None;
         Args.aesmin := None;
         Args.matchmin := None |} = Raise e.
Proof.
  apply (unsupported_lang_never_writes demo _ (py_str "fr")); reflexivity.
Defined.

(** ** Path rewriting *)

(** X18. [--abspath base] joins the base directory and every path: a path
    that is absolute already (it starts with a slash) is left as it is,
    and the base is put in front of the others. *)
Theorem abspath_joins (base : str) (data data' : DataFrame)
  (paths : list value) :
  well_formed data = true ->
  getitem data col_path = Return paths ->
  process_abspath base data = Return data' ->
  exists paths',
    getitem data' col_path = Return paths'
    /\ forall k x,
         nth_error paths k = Some (VStr x) ->
         nth_error paths' k = Some (VStr (path_join base x))
         /\ (startswith x [sep] = true -> path_join base x = x)
         /\ (startswith x [sep] = false ->
             exists mid, path_join base x = base ++ mid ++ x
                         /\ (mid = [] \/ mid = [sep])).
Proof.
  intros Hwf Hpaths Hrun. pose proof Hpaths as Hcol.
  apply getitem_returned in Hcol as [i [Hi Hcol]].
  unfold process_abspath, apply in Hrun. rewrite Hpaths in Hrun.
  cbn [bind] in Hrun.
  destruct (mapM (on_str (fun x => Return (VStr (path_join base x)))) paths)
    as [new|] eqn:E; [|discriminate].
  cbn [bind] in Hrun. apply Return_inj in Hrun. subst data'.
  destruct (mapM_nth_error _ _ _ E) as [Hlen Hnth].
  exists new. split.
  - apply (getitem_setitem data col_path new i); auto.
    rewrite Hlen, Hcol. apply length_map.
  - intros k x Hk. destruct (Hnth k _ Hk) as [y [Hy Hf]].
    cbn [on_str] in Hf. apply Return_inj in Hf. subst y.
    split; [exact Hy|]. unfold path_join. split.
    + intros Hx. now rewrite Hx.
    + intros Hx. rewrite Hx.
      destruct (match base with [] => true | _ :: _ => endswith base [sep] end).
      * exists []. split; [reflexivity | now left].
      * exists [sep]. split; [reflexivity | now right].
Qed.

(** [--abspath /data] on the three-row table, whose paths are relative. *)
Lemma abspath_joins_witness :
  exists data' paths',
    process_abspath (py_str "/data") in_csv = Return data'
    /\ getitem data' col_path = Return paths'
    /\ nth_error paths' 0 = Some (VStr (py_str "/data/a.png")).
Proof.
  destruct (abspath_joins (py_str "/data") in_csv _ _
              eq_refl eq_refl eq_refl) as [paths' [Hg Hn]].
  eexists. exists paths'. split; [reflexivity|]. split; [exact Hg|].
  exact (proj1 (Hn 0 (py_str "a.png") eq_refl)).
Defined.

(** ** The branch of the prober *)

Lemma rfind_from_bound (c : char) (s : str) (i : Z) :
  (rfind_from c s i = -1 \/
   i <= rfind_from c s i < i + Z.of_nat (length s))%Z.
Proof.
  revert i. induction s as [|x s IH]; intros i; cbn [rfind_from length];
    [now left|].
  destruct (IH (i + 1)%Z) as [->|Hr].
  - simpl. destruct (x =? c)%N; [right; lia | now left].
  - destruct (0 <=? rfind_from c s (i + 1))%Z eqn:Hle.
    + right. lia.
    + destruct (x =? c)%N; [right; lia | now left].
Qed.

Lemma rfind_from_app_absent (c : char) (a b : str) (i : Z) :
  (0 <= i)%Z ->
  contains_char c b = false ->
  rfind_from c (a ++ b) i = rfind_from c a i.
Proof.
  intros Hi Hb. revert i Hi.
  induction a as [|x a IH]; intros i Hi; cbn [app rfind_from].
  - now apply rfind_from_absent.
  - now rewrite IH by lia.
Qed.

(** X19. Only the extension of the last path component decides between the
    image and the video branch: a path whose file name holds no dot is
    probed as a video, whatever the directories before it are called. *)
Theorem no_extension_is_video (U : Unicode) (cv : OpenCV) (dir name : str) :
  contains_char sep name = false ->
  contains_char extsep name = false ->
  splitext (dir ++ sep :: name) = (dir ++ sep :: name, [])
  /\ get_video_info U cv (VStr (dir ++ sep :: name))
     = (let '(num_frames, height, width, fps) :=
          video_props cv (dir ++ sep :: name) in
        video_info_of num_frames height width fps).
Proof.
  intros Hsep Hdot.
  assert (Hs : splitext (dir ++ sep :: name) = (dir ++ sep :: name, [])).
  { unfold splitext, rfind.
    rewrite (rfind_from_last sep dir name 0 ltac:(lia) Hsep).
    replace (dir ++ sep :: name) with ((dir ++ [sep]) ++ name) at 1
      by (rewrite <- app_assoc; reflexivity).
    rewrite (rfind_from_app_absent extsep (dir ++ [sep]) name 0 ltac:(lia)
               Hdot).
    replace (dir ++ [sep]) with (dir ++ sep :: [])  by reflexivity.
    rewrite (rfind_from_app_absent extsep dir [sep] 0 ltac:(lia) eq_refl).
    destruct (rfind_from_bound extsep dir 0) as [->|Hb].
    - destruct (0 + Z.of_nat (length dir) <? -1)%Z eqn:Hlt;
        [apply Z.ltb_lt in Hlt; lia | reflexivity].
    - destruct (0 + Z.of_nat (length dir) <? rfind_from extsep dir 0)%Z
        eqn:Hlt; [apply Z.ltb_lt in Hlt; lia | reflexivity]. }
  split; [exact Hs|].
  cbn [get_video_info]. unfold get_video_info_str. rewrite Hs.
  reflexivity.
Qed.

(** A clip without extension in a directory named like an image. *)
Lemma no_extension_is_video_witness :
  splitext (py_str "shots.png" ++ sep :: py_str "clip")
  = (py_str "shots.png" ++ sep :: py_str "clip", [])
  /\ get_video_info basic_latin demo_cv2
       (VStr (py_str "shots.png" ++ sep :: py_str "clip"))
     = (let '(num_frames, height, width, fps) :=
          video_props demo_cv2 (py_str "shots.png" ++ sep :: py_str "clip") in
        video_info_of num_frames height width fps).
Proof.
  apply (no_extension_is_video basic_latin demo_cv2); reflexivity.
Defined.

(** ** Concatenation of one table *)

Lemma column_index_nth (cols : list str) (k : nat) (c : str) :
  NoDup cols -> nth_error cols k = Some c -> column_index c cols = Some k.
Proof.
  intros Hnd. revert k. induction Hnd as [|x l Hx Hnd IH]; intros k Hk.
  - destruct k; discriminate.
  - destruct k as [|k]; cbn [nth_error column_index] in *.
    + injection Hk as ->. unfold str_eqb.
      destruct (list_eq_dec N.eq_dec c c); [reflexivity | contradiction].
    + unfold str_eqb. destruct (list_eq_dec N.eq_dec c x) as [->|_].
      * exfalso. apply Hx. now apply nth_error_In in Hk.
      * now rewrite (IH k Hk).
Qed.

Lemma reindex_row_same (cols : list str) (r : Row) :
  NoDup cols ->
  length (cells r) = length cols ->
  reindex_row cols cols r = cells r.
Proof.
  intros Hnd Hlen. unfold reindex_row.
  apply nth_error_ext. intros k. rewrite nth_error_map.
  destruct (nth_error cols k) as [c|] eqn:Hc; cbn [option_map].
  - rewrite (column_index_nth cols k c Hnd Hc). unfold cell_at.
    assert (Hk : k < length (cells r))
      by (rewrite Hlen; apply nth_error_Some; congruence).
    symmetry. now apply nth_error_nth'.
  - symmetry. apply nth_error_None. apply nth_error_None in Hc. lia.
Qed.

(** X20. Loading one table whose column names are distinct changes nothing
    but the row labels: the concatenation has the same columns and, row by
    row, the same cells; the labels are renumbered from 0. *)
Theorem pd_concat_single (data : DataFrame) :
  NoDup (columns data) ->
  well_formed data = true ->
  exists data',
    pd_concat [data] = Return data'
    /\ columns data' = columns data
    /\ map cells (rows data') = map cells (rows data)
    /\ map label (rows data') = seq 0 (df_len data).
Proof.
  intros Hnd Hwf. eexists. split; [reflexivity|].
  assert (Hcols : union_columns [data] = columns data).
  { unfold union_columns. cbn [fold_left app existsb negb].
    clear. induction (columns data) as [|c l IH]; [reflexivity|].
    cbn [filter]. now rewrite IH. }
  cbn [columns rows]. rewrite Hcols. split; [reflexivity|].
  cbn [flat_map]. rewrite app_nil_r.
  assert (Hrows : map (reindex_row (columns data) (columns data)) (rows data)
                  = map cells (rows data)).
  { apply map_ext_in. intros r Hr. apply reindex_row_same; [assumption|].
    unfold well_formed in Hwf. rewrite forallb_forall in Hwf.
    now apply Nat.eqb_eq, Hwf. }
  rewrite Hrows. split.
  - unfold relabel. rewrite map_map. cbn [cells].
    apply map_snd_combine_eq. now rewrite length_seq.
  - rewrite relabel_labels, length_map. reflexivity.
Qed.

(** The three-row table. *)
Lemma pd_concat_single_witness :
  exists data',
    pd_concat [in_csv] = Return data'
    /\ columns data' = columns in_csv
    /\ map cells (rows data') = map cells (rows in_csv)
    /\ map label (rows data') = seq 0 (df_len in_csv).
Proof.
  apply pd_concat_single; [|reflexivity].
  repeat constructor; simpl; intros H;
    repeat (destruct H as [H|H]; [discriminate H|]); exact H.
Defined.
